(** * busservice: a shallow embedding of the bus line simulation

    Source: [busservice/busservice.go] (package [busservice]) and its driver
    ([package main]).  Go values are embedded as follows.

    - [string] is a byte string: Rocq's [string].
    - [int16] (the position index [currentStop]) is a [Z] kept in range by
      [wrap16]; [uint8] is a [Z]; [float64] is a primitive float (only
      literals are used, no arithmetic).
    - [*BusStop] is an optional location ([None] is [nil]) into a heap of
      bus stops; the heap is total because Go has no dangling pointers.
    - [map[string]Passenger] is a [gmap string Passenger]; a [nil] map and an
      empty one behave alike under every operation of the package ([add]
      allocates before it writes), so both are [∅].
    - a method with a pointer receiver [*Bus] is a computation in the monad
      [M], whose state is the bus and the lines printed so far; a panic
      stops the computation and keeps the state it was raised in.
    - [fmt.Printf] appends an [Event] that carries the arguments printed. *)

From Stdlib Require Import ZArith String Ascii List Lia PrimFloat.
From stdpp Require Import base option list gmap strings fin_maps.

Local Open Scope Z_scope.

(** ** Data model *)

(** SeniorAge is the minimum age from which a Passenger is a senior. *)
Definition SeniorAge : Z := 65.

Definition loc := positive.

(** A [*BusStop]. *)
Definition ptr := option loc.

Definition nil : ptr := None.

Record Passenger := mkPassenger {
  SSN : string;
  SeatNumber : Z;
  Destination : ptr;
  HasValidTicket : bool
}.

(** The zero value [Passenger{}]. *)
Definition emptyPassenger : Passenger := mkPassenger EmptyString 0 nil false.

Record Prospect := mkProspect {
  Prospect_SSN : string;
  Prospect_Destination : ptr
}.

Definition BusCompany := string.

Record Bus := mkBus {
  Company : BusCompany;
  name : string;
  passengers : gmap string Passenger;
  stops : list ptr;
  currentStop : Z
}.

Record BusStop := mkBusStop {
  Name : string;
  prospects : list Prospect;
  busses : list Bus
}.

Definition Heap := loc -> BusStop.

Definition set_passengers (m : gmap string Passenger) (b : Bus) : Bus :=
  mkBus (Company b) (name b) m (stops b) (currentStop b).

Definition set_stops (l : list ptr) (b : Bus) : Bus :=
  mkBus (Company b) (name b) (passengers b) l (currentStop b).

Definition set_currentStop (i : Z) (b : Bus) : Bus :=
  mkBus (Company b) (name b) (passengers b) (stops b) i.

Definition set_HasValidTicket (t : bool) (p : Passenger) : Passenger :=
  mkPassenger (SSN p) (SeatNumber p) (Destination p) t.

Definition set_SSN (s : string) (p : Passenger) : Passenger :=
  mkPassenger s (SeatNumber p) (Destination p) (HasValidTicket p).

(** Conversion of an [int] to [int16]: the low 16 bits, two's complement. *)
Definition wrap16 (z : Z) : Z := (z + 32768) mod 65536 - 32768.

(** ** Output and panics *)

(** One constructor per [fmt.Printf] of the package. *)
Inductive Event :=
| Charged (ssn : string) (amount : float)
| Boarded (bus ssn : string)
| Unboarded (bus ssn : string)
| EndOfLine (bus : string)
| Starting (bus : string)
| Carrying (bus : string) (n : nat)
| Arriving (bus stop : string).

(** What a panic carries: the argument of an explicit [panic], or the
    run-time error raised by an index, a slice or a dereference. *)
Inductive PanicValue :=
| PanicString (msg : string)
| IndexOutOfRange (i : Z) (len : nat)
| SliceBoundsOutOfRange (low : Z)
| NilDereference.

(** The outcome of a call: it returns a value, or it panics.  A Go function
    of this package has no other way to end; none returns an [error]. *)
Inductive result (A : Type) :=
| Ret (a : A)
| Panic (v : PanicValue).
Arguments Ret {A} a.
Arguments Panic {A} v.

Definition returns {A} (r : result A) : bool :=
  match r with Ret _ => true | Panic _ => false end.

Definition panics {A} (r : result A) : bool := negb (returns r).

Definition rbind {A B} (r : result A) (k : A -> result B) : result B :=
  match r with
  | Ret a => k a
  | Panic v => Panic v
  end.

(** ** The state monad of a [*Bus] method *)

Record State := mkState {
  bus : Bus;
  out : list Event
}.

Definition M (A : Type) : Type := State -> result A * State.

Definition ret {A} (a : A) : M A := fun s => (Ret a, s).

Definition bind {A B} (m : M A) (k : A -> M B) : M B :=
  fun s =>
    match m s with
    | (Ret a, s') => k a s'
    | (Panic v, s') => (Panic v, s')
    end.

Definition lift {A} (r : result A) : M A := fun s => (r, s).

Definition get_bus : M Bus := fun s => (Ret (bus s), s).

Definition modify_bus (f : Bus -> Bus) : M unit :=
  fun s => (Ret tt, mkState (f (bus s)) (out s)).

Definition emit (e : Event) : M unit :=
  fun s => (Ret tt, mkState (bus s) (out s ++ [e])).

Declare Scope go_scope.
Delimit Scope go_scope with go.
Notation "x <- m ;; k" := (bind m (fun x => k))
  (at level 100, m at next level, right associativity) : go_scope.
Notation "m ;;; k" := (bind m (fun _ => k))
  (at level 100, right associativity) : go_scope.
Local Open Scope go_scope.

(** [for _, x := range l { body(x) }] over a slice. *)
Fixpoint for_each {A} (l : list A) (body : A -> M unit) : M unit :=
  match l with
  | [] => ret tt
  | x :: l' => body x ;;; for_each l' body
  end.

(** ** strconv.ParseInt(s, 10, 8)

    The standard library's parser at base 10 and bit size 8: an optional
    sign, then one or more decimal digits; the value must fit in [int8]. *)

Inductive NumError := ErrSyntax | ErrRange.

Definition digit_of (c : ascii) : option Z :=
  let n := Z.of_N (N_of_ascii c) in
  if (48 <=? n) && (n <=? 57) then Some (n - 48) else None.

(** The scanning loop of [ParseUint(s, 10, 8)]: a byte that is not a digit
    is a syntax error, and the scan stops with a range error as soon as
    the value passes 255. *)
Fixpoint ParseUint_loop (s : string) (n : Z) : NumError + Z :=
  match s with
  | EmptyString => inr n
  | String c s' =>
    match digit_of c with
    | None => inl ErrSyntax
    | Some d =>
      let n1 := n * 10 + d in
      if 255 <? n1 then inl ErrRange else ParseUint_loop s' n1
    end
  end.

Definition ParseUint (s : string) : NumError + Z :=
  match s with
  | EmptyString => inl ErrSyntax
  | _ => ParseUint_loop s 0
  end.

Definition ParseInt (s : string) : NumError + Z :=
  match s with
  | EmptyString => inl ErrSyntax
  | String c s' =>
    let neg := Ascii.eqb c "-" in
    let digits := if Ascii.eqb c "+" || neg then s' else s in
    match ParseUint digits with
    | inl e => inl e
    | inr un =>
      if negb neg && (128 <=? un) then inl ErrRange
      else if neg && (128 <? un) then inl ErrRange
      else inr (if neg then - un else un)
    end
  end.

(** ** Passenger *)

(** Charge prints that the Passenger has been charged [amount] and returns a
    copy with a valid ticket. *)
Definition Charge (p : Passenger) (amount : float) : M Passenger :=
  if HasValidTicket p then ret p
  else emit (Charged (SSN p) amount) ;;; ret (set_HasValidTicket true p).

(** [s[len(s)-2:]] *)
Definition last_two (s : string) : result string :=
  let n := String.length s in
  if (n <? 2)%nat then Panic (SliceBoundsOutOfRange (Z.of_nat n - 2))
  else Ret (substring (n - 2) 2 s).

(** IsSenior reads the last two bytes of the SSN as an age. *)
Definition IsSenior (p : Passenger) : result bool :=
  rbind (last_two (SSN p)) (fun s =>
    match ParseInt s with
    | inl _ => Panic (PanicString ("invalid SSN: " ++ SSN p))
    | inr age => Ret (SeniorAge <=? age)
    end).

(** ** Pricing *)

Definition PriceCalculator := Passenger -> M float.

Definition WorkdayPricing : PriceCalculator := fun p =>
  senior <- lift (IsSenior p) ;;
  if senior then ret 4.5%float else ret 6.0%float.

Definition WeekendPricing : PriceCalculator := fun p =>
  senior <- lift (IsSenior p) ;;
  if senior then ret 3.5%float else ret 5.0%float.

Inductive Weekday :=
| Sunday | Monday | Tuesday | Wednesday | Thursday | Friday | Saturday.

(** GetPricing picks the calculator of the day; [wd] stands for
    [time.Now().Weekday()]. *)
Definition GetPricing (c : BusCompany) (wd : Weekday) : PriceCalculator :=
  match wd with
  | Saturday | Sunday => WeekendPricing
  | _ => WorkdayPricing
  end.

(** ** Bus and BusStop

    The heap of bus stops is read and never written by the methods of
    [*Bus]; [today] is the day [time.Now()] falls on; [order] is the order
    in which a [range] over a passenger map produces its keys, which Go
    leaves unspecified. *)

Section Service.

Variable heap : Heap.
Variable today : Weekday.
Variable order : gmap string Passenger -> list string.

(** [p.Name], [p.prospects]: reading a field through a [*BusStop]. *)
Definition deref (p : ptr) : result BusStop :=
  match p with
  | Some l => Ret (heap l)
  | None => Panic NilDereference
  end.

(** [l[i]] for a slice [l] and an [int16] index. *)
Definition index {A} (l : list A) (i : Z) : result A :=
  if i <? 0 then Panic (IndexOutOfRange i (length l))
  else match l !! Z.to_nat i with
       | Some x => Ret x
       | None => Panic (IndexOutOfRange i (length l))
       end.

(** Equals returns true if the given BusStop has the receiver's name. *)
Definition Equals (b busStop : ptr) : result bool :=
  rbind (deref b) (fun s1 =>
  rbind (deref busStop) (fun s2 =>
  Ret (String.eqb (Name s1) (Name s2)))).

Fixpoint StopsAt_loop (l : list ptr) (busStop : ptr) : result bool :=
  match l with
  | [] => Ret false
  | stop :: l' =>
    rbind (Equals stop busStop) (fun e =>
    if e then Ret true else StopsAt_loop l' busStop)
  end.

(** StopsAt checks if the Bus stops at the given BusStop. *)
Definition StopsAt (b : Bus) (busStop : ptr) : result bool :=
  StopsAt_loop (stops b) busStop.

(** CurrentStop returns the BusStop the Bus is currently stopped at. *)
Definition CurrentStop (b : Bus) : result ptr :=
  index (stops b) (currentStop b).

(** NewBus returns a new Bus with an empty passenger set. *)
Definition NewBus (n : string) : Bus :=
  mkBus EmptyString n ∅ [] (-1).

(** add adds a single Passenger to the Bus, under its SSN. *)
Definition add (p : Passenger) : M unit :=
  modify_bus (fun b => set_passengers (<[SSN p := p]> (passengers b)) b) ;;;
  b <- get_bus ;;
  emit (Boarded (name b) (SSN p)).

(** Board charges the Passenger with [chargeFn] unless the ticket is paid,
    and adds the Passenger to the Bus.  The Passenger is taken by value:
    a [nil] argument is not a passenger, and the caller's copy is never
    written. *)
Definition Board (p : Passenger) (chargeFn : PriceCalculator) : M bool :=
  pa <- (if HasValidTicket p then ret (p, true)
         else amount <- chargeFn p ;;
              p2 <- Charge p amount ;;
              ret (p2, true)) ;;
  (if snd pa then add (fst pa) else ret tt) ;;;
  ret (snd pa).

(** Remove removes a single Passenger from the Bus. *)
Definition Remove (p : Passenger) : M unit :=
  modify_bus (fun b => set_passengers (delete (SSN p) (passengers b)) b) ;;;
  b <- get_bus ;;
  emit (Unboarded (name b) (SSN p)).

(** AddStop appends the BusStop to the route. *)
Definition AddStop (busStop : ptr) : M unit :=
  modify_bus (fun b => set_stops (stops b ++ [busStop]) b).

(** [for _, one := range b.passengers { visitor(one) }], the keys coming
    in the order [ks]: an entry deleted before it is reached is not
    produced, and the value is read when the entry is reached. *)
Fixpoint range_passengers (ks : list string) (visitor : Passenger -> M unit)
  : M unit :=
  match ks with
  | [] => ret tt
  | k :: ks' =>
    b <- get_bus ;;
    match passengers b !! k with
    | Some one => visitor one ;;; range_passengers ks' visitor
    | None => range_passengers ks' visitor
    end
  end.

(** VisitPassengers calls visitor for each Passenger on the bus. *)
Definition VisitPassengers (visitor : Passenger -> M unit) : M unit :=
  b <- get_bus ;;
  range_passengers (order (passengers b)) visitor.

(** FindPassenger returns the Passenger with the SSN, or an empty one. *)
Definition FindPassenger (b : Bus) (ssn : string) : Passenger :=
  match passengers b !! ssn with
  | Some p => p
  | None => emptyPassenger
  end.

(** UpdatePassengers rebuilds the set from the visited copies, each stored
    under the key it was found at.  The visitor is a pure update. *)
Definition UpdatePassengers (visitor : Passenger -> Passenger) : M unit :=
  modify_bus (fun b => set_passengers (visitor <$> passengers b) b).

(** ToPassenger returns a Passenger with the SSN of the Prospect. *)
Definition ToPassenger (p : Prospect) : Passenger :=
  mkPassenger (Prospect_SSN p) 0 (Prospect_Destination p) false.

(** The first loop of NotifyBusArrival: passengers whose destination is
    the current stop leave. *)
Definition alight (p : Passenger) : M unit :=
  b <- get_bus ;;
  cur <- lift (CurrentStop b) ;;
  e <- lift (Equals cur (Destination p)) ;;
  if e then Remove p else ret tt.

(** The second loop of NotifyBusArrival: a prospect boards if the bus
    stops at the prospect's destination. *)
Definition board_prospect (p : Prospect) : M unit :=
  b <- get_bus ;;
  st <- lift (StopsAt b (Prospect_Destination p)) ;;
  if st then Board (ToPassenger p) (GetPricing (Company b) today) ;;; ret tt
  else ret tt.

(** NotifyBusArrival is called by Bus upon arrival at the stop [b]. *)
Definition NotifyBusArrival (b : ptr) : M unit :=
  VisitPassengers alight ;;;
  s <- lift (deref b) ;;
  for_each (prospects s) board_prospect.

(** Go takes the Bus to the next BusStop.  Go returns true if there are
    still more stops to visit. *)
Definition Go : M bool :=
  modify_bus (fun b => set_currentStop (wrap16 (currentStop b + 1)) b) ;;;
  b <- get_bus ;;
  let lastIndex := wrap16 (Z.of_nat (length (stops b)) - 1) in
  if currentStop b =? lastIndex then
    emit (EndOfLine (name b)) ;;;
    VisitPassengers Remove ;;;
    ret false
  else
    (if currentStop b =? 0 then emit (Starting (name b))
     else emit (Carrying (name b) (size (passengers b)))) ;;;
    curr <- lift (index (stops b) (currentStop b)) ;;
    s <- lift (deref curr) ;;
    emit (Arriving (name b) (Name s)) ;;;
    NotifyBusArrival curr ;;;
    b' <- get_bus ;;
    ret (currentStop b' <? lastIndex).

(** NotifyBoardingIntent adds the stop to the route unless it is there. *)
Definition NotifyBoardingIntent (busStop : ptr) : M unit :=
  b <- get_bus ;;
  st <- lift (StopsAt b busStop) ;;
  if st then ret tt else AddStop busStop.

(** NotifyArrival notifies the current BusStop that the Bus has arrived. *)
Definition NotifyArrival : M unit :=
  b <- get_bus ;;
  curr <- lift (index (stops b) (currentStop b)) ;;
  NotifyBusArrival curr.

End Service.

(** The keys of a map in the order stdpp lists them: one possible order
    for a [range], used to run examples. *)
Definition key_order (m : gmap string Passenger) : list string :=
  (map_to_list m).*1.

(** NotifyProspectArrival appends the prospect to the stop (a write to the
    heap), then lets every bus of the stop's list that reaches the
    destination register the stop.  The loop works on copies of the
    buses, so only a panic of it can be observed. *)
Definition NotifyProspectArrival (h : Heap) (b : ptr) (p : Prospect)
  : result unit * Heap :=
  match b with
  | None => (Panic NilDereference, h)
  | Some l =>
    let s := h l in
    let s' := mkBusStop (Name s) (prospects s ++ [p]) (busses s) in
    let h' : Heap := fun l' => if Pos.eqb l' l then s' else h l' in
    let step (acc : result unit) (bus0 : Bus) : result unit :=
      rbind acc (fun _ =>
      rbind (StopsAt h' bus0 (Prospect_Destination p)) (fun st =>
      if st then rbind (StopsAt h' bus0 b) (fun _ => Ret tt) else Ret tt)) in
    (fold_left step (busses s) (Ret tt), h')
  end.

(** Runs [m] on a bus with nothing printed yet. *)
Definition run {A} (m : M A) (b : Bus) : result A * State :=
  m (mkState b []).

(** [n] calls of [Go] in a row, each made once the one before returned. *)
Fixpoint advance (heap : Heap) (today : Weekday)
    (order : gmap string Passenger -> list string) (n : nat) : M unit :=
  match n with
  | O => ret tt
  | S n' => Go heap today order ;;; advance heap today order n'
  end.

(** ** Predicates of the statements *)

(** What Go guarantees of a [range] over a map: every key once. *)
Definition range_order (order : gmap string Passenger -> list string) : Prop :=
  forall m, order m ≡ₚ (map_to_list m).*1.

(** Every passenger of the set is stored under its own SSN. *)
Definition keyed (m : gmap string Passenger) : Prop :=
  map_Forall (fun k p => SSN p = k) m.

(** The position is -1 (not started) or an index of the route. *)
Definition on_route (b : Bus) : Prop :=
  -1 <= currentStop b <= Z.of_nat (length (stops b)) - 1.

(** The route of [b] has a stop with the name of the stop [d] points to. *)
Definition route_has (heap : Heap) (b : Bus) (d : ptr) : Prop :=
  exists l l', Some l ∈ stops b /\ d = Some l' /\ Name (heap l) = Name (heap l').

(** A computation that leaves the route, the position, the name and the
    company of the bus alone, however it ends. *)
Definition keeps_route {A} (m : M A) : Prop :=
  forall s r s', m s = (r, s') ->
    stops (bus s') = stops (bus s) /\
    currentStop (bus s') = currentStop (bus s) /\
    name (bus s') = name (bus s) /\
    Company (bus s') = Company (bus s).

(** A computation that keeps the property [I] of the bus, however it
    ends. *)
Definition preserves (I : Bus -> Prop) {A} (m : M A) : Prop :=
  forall s r s', I (bus s) -> m s = (r, s') -> I (bus s').

(** The passengers of the bus are stored under their SSN. *)
Definition keyed_bus (b : Bus) : Prop := keyed (passengers b).

(** The prospect [w] waits at the stop [stop] points to. *)
Definition waits_at (heap : Heap) (stop : ptr) (w : Prospect) : Prop :=
  exists l, stop = Some l /\ w ∈ prospects (heap l).

(** The SSN a line of output charges or boards, if it does. *)
Definition boarding_of (e : Event) : option string :=
  match e with
  | Charged ssn _ => Some ssn
  | Boarded _ ssn => Some ssn
  | _ => None
  end.

(** ** The driver's scenario *)

Definition Downtown : loc := 1%positive.
Definition TheUniversity : loc := 2%positive.
Definition TheVillage : loc := 3%positive.

Definition john : Prospect := mkProspect "12345612-22" (Some TheUniversity).
Definition betty : Prospect := mkProspect "11223322-67" (Some TheVillage).

(** The three stops of [main], before anybody waits at them. *)
Definition stops_heap : Heap := fun l =>
  match l with
  | 1%positive => mkBusStop "Downtown" [] []
  | 2%positive => mkBusStop "The University" [] []
  | _ => mkBusStop "The Village" [] []
  end.

(** The heap once john and betty have arrived at Downtown. *)
Definition main_heap : Heap :=
  snd (NotifyProspectArrival
         (snd (NotifyProspectArrival stops_heap (Some Downtown) john))
         (Some Downtown) betty).

(** The Express Line with its three stops, before the first [Go]. *)
Definition expressLine : State :=
  snd (run (AddStop (Some Downtown) ;;;
            AddStop (Some TheUniversity) ;;;
            AddStop (Some TheVillage)) (NewBus "Express Line")).

(** A line with the single stop Downtown. *)
Definition shortLine : State :=
  snd (run (AddStop (Some Downtown)) (NewBus "Short Line")).

(** A ticketed passenger boards a one-stop line and is then renamed
    through [UpdatePassengers]: the set keeps the old key. *)
Definition renamedLine : State :=
  snd (run (AddStop (Some Downtown) ;;;
            Board (mkPassenger "11223322-67" 0 (Some Downtown) true)
                  WorkdayPricing ;;;
            UpdatePassengers (set_SSN "99887766-55"))
           (NewBus "Short Line")).

(** ** Passengers, the set type

    The methods of [Passengers] that the bus does not go through.  A
    visitor of [Visit] works on a state of its own and leaves the set
    alone; the visitor of [VisitUpdate] is a pure update. *)

(** NewPassengerSet returns an empty set of Passengers. *)
Definition NewPassengerSet : gmap string Passenger := ∅.

(** Visit calls visitor once for every Passenger in the set. *)
Definition Visit {S : Type} (order : gmap string Passenger -> list string)
    (p : gmap string Passenger) (visitor : Passenger -> S -> S) (s : S) : S :=
  foldl (fun acc k =>
           match p !! k with
           | Some one => visitor one acc
           | None => acc
           end) s (order p).

(** Find returns the Passenger with the given SSN, or an empty one. *)
Definition Find (p : gmap string Passenger) (ssn : string) : Passenger :=
  match p !! ssn with
  | Some one => one
  | None => emptyPassenger
  end.

(** The loop of VisitUpdate: each passenger met is copied, visited, and
    stored back under the key it was met at; the set is written in place
    while it is ranged over. *)
Fixpoint VisitUpdate_loop (ks : list string) (visitor : Passenger -> Passenger)
    (p : gmap string Passenger) : gmap string Passenger :=
  match ks with
  | [] => p
  | ssn :: ks' =>
    match p !! ssn with
    | Some pp => VisitUpdate_loop ks' visitor (<[ssn := visitor pp]> p)
    | None => VisitUpdate_loop ks' visitor p
    end
  end.

(** VisitUpdate calls visitor for each Passenger in the set. *)
Definition VisitUpdate (order : gmap string Passenger -> list string)
    (visitor : Passenger -> Passenger) (p : gmap string Passenger)
  : gmap string Passenger :=
  VisitUpdate_loop (order p) visitor p.

(** Manifest returns the SSNs of all Passengers in the set. *)
Definition Manifest (order : gmap string Passenger -> list string)
    (p : gmap string Passenger) : list string :=
  Visit order p (fun one ssns => ssns ++ [SSN one]) [].

(** Bus.Manifest asks the passenger set for its manifest. *)
Definition Bus_Manifest (order : gmap string Passenger -> list string)
    (b : Bus) : list string :=
  Manifest order (passengers b).

(** The names of the stops of a route, in route order; a [nil] stop has
    none. *)
Definition route_names (heap : Heap) (b : Bus) : list string :=
  omap (fun stop : ptr => (fun l => Name (heap l)) <$> stop) (stops b).

(** No stop of the route is [nil] and no two stops have the same name. *)
Definition distinct_stops (heap : Heap) (b : Bus) : Prop :=
  (None ∉ stops b) /\ NoDup (route_names heap b).

(** The test of the alighting loop, [bus.CurrentStop().Equals(p.Destination)]:
    is the bus at the destination of [p]? *)
Definition at_destination (heap : Heap) (b : Bus) (p : Passenger)
  : result bool :=
  rbind (CurrentStop b) (fun cur => Equals heap cur (Destination p)).

(** Every passenger on the bus holds a valid ticket. *)
Definition all_ticketed (b : Bus) : Prop :=
  map_Forall (fun _ p => HasValidTicket p = true) (passengers b).

(** The loop of the driver, [for b.Go() { body }], cut after [fuel] calls
    of Go: [None] when the fuel ran out, otherwise the number of calls of
    Go that were made. *)
Fixpoint drive (heap : Heap) (today : Weekday)
    (order : gmap string Passenger -> list string) (body : M unit)
    (fuel : nat) : M (option nat) :=
  match fuel with
  | O => ret None
  | S fuel' =>
    more <- Go heap today order ;;
    if more then
      body ;;;
      n <- drive heap today order body fuel' ;;
      ret (S <$> n)
    else ret (Some 1%nat)
  end.

(** The bus of [main] at The University, with john and betty on it and
    before anybody left. *)
Definition atUniversity : State :=
  let s := snd (Go main_heap Monday key_order expressLine) in
  mkState (set_currentStop 1 (bus s)) (out s).

(** The Express Line after a ticketed passenger without destination
    boarded. *)
Definition strayLine : State :=
  snd (Board (mkPassenger "11223322-67" 0 nil true) WorkdayPricing expressLine).

(** ** Examples *)

Example ParseInt_22 : ParseInt "22" = inr 22.
Proof. reflexivity. Qed.
Example ParseInt_m7 : ParseInt "-7" = inr (-7).
Proof. reflexivity. Qed.
Example ParseInt_ab : ParseInt "ab" = inl ErrSyntax.
Proof. reflexivity. Qed.
Example IsSenior_betty : IsSenior (mkPassenger "11223322-67" 0 nil false) = Ret true.
Proof. reflexivity. Qed.

(** ** The monad: how computations compose *)

Lemma bind_Ret {A B} (m : M A) (k : A -> M B) s a s1 :
  m s = (Ret a, s1) -> bind m k s = k a s1.
Proof. intros H. unfold bind. now rewrite H. Qed.

Lemma bind_Panic {A B} (m : M A) (k : A -> M B) s v s1 :
  m s = (Panic v, s1) -> bind m k s = (Panic v, s1).
Proof. intros H. unfold bind. now rewrite H. Qed.

Lemma bind_inv {A B} (m : M A) (k : A -> M B) s r s2 :
  bind m k s = (r, s2) ->
  (exists a s1, m s = (Ret a, s1) /\ k a s1 = (r, s2)) \/
  (exists v, m s = (Panic v, s2) /\ r = Panic v).
Proof.
  unfold bind. destruct (m s) as [[a|v] s1]; intros H.
  - left. eauto.
  - right. inversion H; subst. eauto.
Qed.

(** ** Passenger: Charge, IsSenior, pricing *)

(** C6. Charging a rider whose ticket is already valid returns the rider
    unchanged and leaves the state, hence the printed output, as it was:
    no charge is recorded. *)
Theorem Charge_valid_ticket_noop (p : Passenger) (amount : float) (s : State) :
  HasValidTicket p = true -> Charge p amount s = (Ret p, s).
Proof. intros H. unfold Charge. now rewrite H. Qed.

Lemma Charge_valid_ticket_noop_witness :
  Charge (mkPassenger "11223322-67" 0 (Some TheVillage) true) 4.5%float
         expressLine
  = (Ret (mkPassenger "11223322-67" 0 (Some TheVillage) true), expressLine).
Proof. apply Charge_valid_ticket_noop. reflexivity. Defined.

(** Charging twice records one charge: the second call is the no-op. *)
Lemma Charge_twice (p : Passenger) (a1 a2 : float) (s : State) :
  (p' <- Charge p a1 ;; Charge p' a2) s = Charge p a1 s.
Proof.
  unfold Charge, bind, emit, ret. destruct (HasValidTicket p) eqn:E; simpl.
  - now rewrite E.
  - reflexivity.
Qed.

(** C7. Where senior classification returns, workday pricing is 4.5 for a
    senior and 6.0 otherwise, weekend pricing 3.5 and 5.0. *)
Theorem pricing_by_category (p : Passenger) (senior : bool) (s : State) :
  IsSenior p = Ret senior ->
  WorkdayPricing p s = (Ret (if senior then 4.5 else 6.0)%float, s) /\
  WeekendPricing p s = (Ret (if senior then 3.5 else 5.0)%float, s).
Proof.
  intros H. unfold WorkdayPricing, WeekendPricing, bind, lift, ret.
  rewrite H. now destruct senior.
Qed.

Lemma pricing_by_category_witness :
  WorkdayPricing (ToPassenger betty) expressLine = (Ret 4.5%float, expressLine) /\
  WeekendPricing (ToPassenger betty) expressLine = (Ret 3.5%float, expressLine).
Proof. apply (pricing_by_category (ToPassenger betty) true). reflexivity. Defined.

(** The pricing of the day is one of the two calculators. *)
Lemma GetPricing_cases (c : BusCompany) (wd : Weekday) :
  GetPricing c wd = WeekendPricing \/ GetPricing c wd = WorkdayPricing.
Proof. destruct wd; auto. Qed.

Lemma digit_of_range (c : ascii) (d : Z) : digit_of c = Some d -> 0 <= d <= 9.
Proof.
  unfold digit_of. destruct (_ && _) eqn:E; [|discriminate].
  intros [= <-]. apply andb_true_iff in E. lia.
Qed.

Lemma digit_not_sign (c : ascii) (d : Z) :
  digit_of c = Some d -> Ascii.eqb c "+" = false /\ Ascii.eqb c "-" = false.
Proof.
  destruct c as [[] [] [] [] [] [] [] []]; vm_compute; intros; try discriminate; auto.
Qed.

(** Two decimal digits parse to the number they write. *)
Lemma ParseInt_two_digits (c1 c0 : ascii) (d1 d0 : Z) :
  digit_of c1 = Some d1 -> digit_of c0 = Some d0 ->
  ParseInt (String c1 (String c0 EmptyString)) = inr (10 * d1 + d0).
Proof.
  intros H1 H0. pose proof (digit_of_range _ _ H1). pose proof (digit_of_range _ _ H0).
  destruct (digit_not_sign _ _ H1) as [Hp Hm].
  unfold ParseInt. rewrite Hp, Hm. cbn [orb negb andb ParseUint ParseUint_loop].
  rewrite H1. change (0 * 10 + d1) with d1.
  destruct (255 <? d1) eqn:E1; [lia|]. rewrite H0.
  destruct (255 <? d1 * 10 + d0) eqn:E2; [lia|].
  destruct (128 <=? d1 * 10 + d0) eqn:E3; [lia|].
  f_equal. lia.
Qed.

(** C8. If the last two bytes of the SSN parse to [age], IsSenior returns
    true exactly when [age] is at least 65. *)
Theorem IsSenior_iff_age (p : Passenger) (s : string) (age : Z) :
  last_two (SSN p) = Ret s -> ParseInt s = inr age ->
  exists b, IsSenior p = Ret b /\ (b = true <-> 65 <= age).
Proof.
  intros Hs Ha. exists (SeniorAge <=? age). split.
  - unfold IsSenior. rewrite Hs. simpl. now rewrite Ha.
  - unfold SeniorAge. apply Z.leb_le.
Qed.

Lemma IsSenior_iff_age_witness :
  exists b, IsSenior (ToPassenger john) = Ret b /\ (b = true <-> 65 <= 22).
Proof. apply (IsSenior_iff_age (ToPassenger john) "22" 22); reflexivity. Defined.

(** For an SSN that ends in two decimal digits the age is ten times the
    first plus the second. *)
Lemma IsSenior_two_digits (p : Passenger) (c1 c0 : ascii) (d1 d0 : Z) :
  last_two (SSN p) = Ret (String c1 (String c0 EmptyString)) ->
  digit_of c1 = Some d1 -> digit_of c0 = Some d0 ->
  IsSenior p = Ret (65 <=? 10 * d1 + d0).
Proof.
  intros Hs H1 H0. unfold IsSenior. rewrite Hs. cbn [rbind].
  now rewrite (ParseInt_two_digits _ _ _ _ H1 H0).
Qed.

(** A malformed SSN, one whose last two bytes are not a number, makes
    IsSenior and both calculators panic: the counterexample of C3. *)
Lemma IsSenior_malformed_SSN_aborts :
  let p := mkPassenger "12345612-ab" 0 (Some TheVillage) false in
  last_two (SSN p) = Ret "ab" /\ ParseInt "ab" = inl ErrSyntax /\
  IsSenior p = Panic (PanicString "invalid SSN: 12345612-ab") /\
  returns (IsSenior p) = false /\
  returns (fst (WorkdayPricing p expressLine)) = false.
Proof. repeat split. Qed.

(** C3, amended. If the last two bytes of the SSN do not parse, IsSenior
    panics with the message "invalid SSN: " followed by the SSN, and so do
    the two pricing functions, in the state they were called in; nothing
    is returned to the caller. *)
Theorem IsSenior_malformed_panics (p : Passenger) (s : string) (e : NumError)
    (st : State) :
  last_two (SSN p) = Ret s -> ParseInt s = inl e ->
  IsSenior p = Panic (PanicString ("invalid SSN: " ++ SSN p)) /\
  WorkdayPricing p st = (Panic (PanicString ("invalid SSN: " ++ SSN p)), st) /\
  WeekendPricing p st = (Panic (PanicString ("invalid SSN: " ++ SSN p)), st).
Proof.
  intros Hs He.
  assert (H : IsSenior p = Panic (PanicString ("invalid SSN: " ++ SSN p))).
  { unfold IsSenior. rewrite Hs. cbn [rbind]. now rewrite He. }
  unfold WorkdayPricing, WeekendPricing, bind, lift. now rewrite H.
Qed.

Lemma IsSenior_malformed_panics_witness :
  let p := mkPassenger "12345612-ab" 0 (Some TheVillage) false in
  IsSenior p = Panic (PanicString "invalid SSN: 12345612-ab") /\
  WorkdayPricing p expressLine
    = (Panic (PanicString "invalid SSN: 12345612-ab"), expressLine) /\
  WeekendPricing p expressLine
    = (Panic (PanicString "invalid SSN: 12345612-ab"), expressLine).
Proof.
  apply (IsSenior_malformed_panics
           (mkPassenger "12345612-ab" 0 (Some TheVillage) false) "ab" ErrSyntax);
    reflexivity.
Defined.

(** An SSN of fewer than two bytes has no last two bytes: the slice
    expression panics before anything is parsed. *)
Lemma IsSenior_short_SSN (p : Passenger) :
  (String.length (SSN p) < 2)%nat ->
  IsSenior p
  = Panic (SliceBoundsOutOfRange (Z.of_nat (String.length (SSN p)) - 2)).
Proof.
  intros H. unfold IsSenior, last_two.
  destruct (Nat.ltb_spec (String.length (SSN p)) 2); [reflexivity | lia].
Qed.

(** IsSenior never returns on a parse error: returning and parsing go
    together. *)
Lemma IsSenior_returns_iff (p : Passenger) :
  returns (IsSenior p) = true <->
  exists s age, last_two (SSN p) = Ret s /\ ParseInt s = inr age.
Proof.
  unfold IsSenior. destruct (last_two (SSN p)) as [s|v]; cbn [rbind].
  - destruct (ParseInt s) as [e|age] eqn:E; cbn [returns]; split.
    + discriminate.
    + intros (s' & age & [= <-] & H). congruence.
    + eauto.
    + reflexivity.
  - cbn. split; [discriminate | intros (s & age & H & _); discriminate].
Qed.

(** ** Bus: position and route *)

(** Before the first [Go] the position is -1 and CurrentStop panics: the
    counterexample of C9. *)
Lemma CurrentStop_before_first_Go_aborts :
  currentStop (NewBus "Express Line") = -1 /\
  CurrentStop (NewBus "Express Line") = Panic (IndexOutOfRange (-1) 0) /\
  returns (CurrentStop (bus expressLine)) = false.
Proof. repeat split. Qed.

Lemma index_in_range {A} (l : list A) (i : Z) :
  0 <= i < Z.of_nat (length l) ->
  exists x, index l i = Ret x /\ l !! Z.to_nat i = Some x.
Proof.
  intros H. unfold index. destruct (Z.ltb_spec i 0); [lia|].
  destruct (l !! Z.to_nat i) as [x|] eqn:E; [eauto|].
  apply lookup_ge_None in E. lia.
Qed.

Lemma index_out_of_range {A} (l : list A) (i : Z) :
  i < 0 \/ Z.of_nat (length l) <= i ->
  index l i = Panic (IndexOutOfRange i (length l)).
Proof.
  intros H. unfold index. destruct (Z.ltb_spec i 0); [reflexivity|].
  destruct (l !! Z.to_nat i) as [x|] eqn:E; [|reflexivity].
  apply lookup_lt_Some in E. lia.
Qed.

Lemma index_Ret_inv {A} (l : list A) (i : Z) (x : A) :
  index l i = Ret x -> 0 <= i < Z.of_nat (length l) /\ l !! Z.to_nat i = Some x.
Proof.
  unfold index. destruct (Z.ltb_spec i 0); [discriminate|].
  destruct (l !! Z.to_nat i) as [y|] eqn:E; [|discriminate].
  intros [= <-]. pose proof (lookup_lt_Some _ _ _ E). split; [lia | congruence].
Qed.

(** C9, amended. With the position at -1 or past the end of the route,
    CurrentStop raises the run-time panic of an index out of range, with
    the index and the length of the route; it returns nothing. *)
Theorem CurrentStop_out_of_range (b : Bus) :
  currentStop b < 0 \/ Z.of_nat (length (stops b)) <= currentStop b ->
  CurrentStop b = Panic (IndexOutOfRange (currentStop b) (length (stops b))).
Proof. apply index_out_of_range. Qed.

Lemma CurrentStop_out_of_range_witness :
  CurrentStop (bus expressLine) = Panic (IndexOutOfRange (-1) 3).
Proof. apply (CurrentStop_out_of_range (bus expressLine)). left. reflexivity. Defined.

(** Inside the route CurrentStop returns the stop at the position. *)
Lemma CurrentStop_in_range (b : Bus) :
  0 <= currentStop b < Z.of_nat (length (stops b)) ->
  exists p, CurrentStop b = Ret p /\ stops b !! Z.to_nat (currentStop b) = Some p.
Proof. apply index_in_range. Qed.

(** C5. On a new bus without stops the first [Go] moves the position to
    0, which is not the last index -1; it announces the start and panics
    on [b.stops[0]]. *)
Theorem Go_empty_route_panics (heap : Heap) (today : Weekday)
    (order : gmap string Passenger -> list string) (n : string)
    (printed : list Event) :
  Go heap today order (mkState (NewBus n) printed)
  = (Panic (IndexOutOfRange 0 0),
     mkState (set_currentStop 0 (NewBus n)) (printed ++ [Starting n])).
Proof. reflexivity. Qed.

(** ** Bus: the passenger set *)

Lemma add_spec (p : Passenger) (s : State) :
  add p s
  = (Ret tt,
     mkState (set_passengers (<[SSN p := p]> (passengers (bus s))) (bus s))
             (out s ++ [Boarded (name (bus s)) (SSN p)])).
Proof. reflexivity. Qed.

Lemma Remove_spec (p : Passenger) (s : State) :
  Remove p s
  = (Ret tt,
     mkState (set_passengers (delete (SSN p) (passengers (bus s))) (bus s))
             (out s ++ [Unboarded (name (bus s)) (SSN p)])).
Proof. reflexivity. Qed.

Lemma ticketed_fixed (p : Passenger) :
  HasValidTicket p = true -> set_HasValidTicket true p = p.
Proof. destruct p; cbn; now intros ->. Qed.

(** What Board does once the price is known.  [paid] is the passenger to
    add and [s1] the state the calculator left. *)
Lemma Board_ticketed (p : Passenger) (chargeFn : PriceCalculator) (s : State) :
  HasValidTicket p = true ->
  Board p chargeFn s
  = (Ret true,
     mkState (set_passengers (<[SSN p := p]> (passengers (bus s))) (bus s))
             (out s ++ [Boarded (name (bus s)) (SSN p)])).
Proof. intros H. unfold Board. rewrite H. reflexivity. Qed.

Lemma Board_charged (p : Passenger) (chargeFn : PriceCalculator) (s s1 : State)
    (amount : float) :
  HasValidTicket p = false -> chargeFn p s = (Ret amount, s1) ->
  Board p chargeFn s
  = (Ret true,
     mkState (set_passengers
                (<[SSN p := set_HasValidTicket true p]> (passengers (bus s1)))
                (bus s1))
             ((out s1 ++ [Charged (SSN p) amount])
              ++ [Boarded (name (bus s1)) (SSN p)])).
Proof.
  intros H Hc. unfold Board. rewrite H.
  unfold bind at 1. unfold bind at 1. rewrite Hc.
  unfold Charge. rewrite H. reflexivity.
Qed.

Lemma Board_charge_panics (p : Passenger) (chargeFn : PriceCalculator)
    (s s1 : State) (v : PanicValue) :
  HasValidTicket p = false -> chargeFn p s = (Panic v, s1) ->
  Board p chargeFn s = (Panic v, s1).
Proof.
  intros H Hc. unfold Board. rewrite H.
  unfold bind at 1. unfold bind at 1. now rewrite Hc.
Qed.

(** Board never answers false. *)
Lemma Board_never_false (p : Passenger) (chargeFn : PriceCalculator)
    (s s' : State) (r : bool) :
  Board p chargeFn s = (Ret r, s') -> r = true.
Proof.
  destruct (HasValidTicket p) eqn:H.
  - rewrite Board_ticketed by assumption. now intros [= <- _].
  - destruct (chargeFn p s) as [[amount|v] s1] eqn:Hc.
    + rewrite (Board_charged _ _ _ _ _ H Hc). now intros [= <- _].
    + rewrite (Board_charge_panics _ _ _ _ _ H Hc). discriminate.
Qed.

(** A passenger without a ticket and with a malformed SSN does not get on
    under the workday pricing: Board panics and the set is as it was.
    The counterexample of C10. *)
Lemma Board_malformed_SSN_aborts :
  let p := mkPassenger "12345612-ab" 0 (Some TheVillage) false in
  Board p WorkdayPricing expressLine
  = (Panic (PanicString "invalid SSN: 12345612-ab"), expressLine) /\
  fst (Board p WorkdayPricing expressLine) <> Ret true /\
  passengers (bus (snd (Board p WorkdayPricing expressLine))) !! SSN p = None.
Proof. repeat split. discriminate. Qed.

(** C10, amended. If the passenger holds a valid ticket, or the price
    calculator returns a price for the passenger, Board returns true and
    the passenger, with a valid ticket, is in the set under its SSN. *)
Theorem Board_returns_true (p : Passenger) (chargeFn : PriceCalculator)
    (s : State) :
  HasValidTicket p = true \/ returns (fst (chargeFn p s)) = true ->
  exists s', Board p chargeFn s = (Ret true, s') /\
             passengers (bus s') !! SSN p = Some (set_HasValidTicket true p).
Proof.
  intros H. destruct (HasValidTicket p) eqn:Ht.
  - eexists. split; [now apply Board_ticketed|].
    cbn. rewrite lookup_insert_eq. now rewrite ticketed_fixed.
  - destruct H as [H|H]; [discriminate|].
    destruct (chargeFn p s) as [[amount|v] s1] eqn:Hc; [|discriminate].
    eexists. split; [now apply (Board_charged _ _ _ _ _ Ht Hc)|].
    cbn. now rewrite lookup_insert_eq.
Qed.

Lemma Board_returns_true_witness :
  exists s', Board (ToPassenger john) WorkdayPricing expressLine = (Ret true, s') /\
             passengers (bus s') !! "12345612-22"
             = Some (mkPassenger "12345612-22" 0 (Some TheUniversity) true).
Proof.
  apply (Board_returns_true (ToPassenger john) WorkdayPricing expressLine).
  right. reflexivity.
Defined.

Lemma keyed_empty : keyed ∅.
Proof. intros k p. now rewrite lookup_empty. Qed.

Lemma keyed_delete (m : gmap string Passenger) (k : string) :
  keyed m -> keyed (delete k m).
Proof.
  intros H j p. rewrite lookup_delete_Some. intros [_ Hj]. now apply H.
Qed.

Lemma keyed_insert (m : gmap string Passenger) (p : Passenger) :
  keyed m -> keyed (<[SSN p := p]> m).
Proof.
  intros H j q. rewrite lookup_insert_Some.
  intros [[<- <-]|[_ Hj]]; [reflexivity | now apply H].
Qed.

(** The end of the line on a set stored by SSN: the loop removes the
    keys one by one, in the order it meets them. *)
Lemma range_Remove_keyed (ks : list string) :
  forall s : State,
    keyed (passengers (bus s)) -> NoDup ks ->
    (forall k, k ∈ ks -> is_Some (passengers (bus s) !! k)) ->
    range_passengers ks Remove s
    = (Ret tt,
       mkState (set_passengers (foldr delete (passengers (bus s)) ks) (bus s))
               (out s ++ map (Unboarded (name (bus s))) ks)).
Proof.
  induction ks as [|k ks IH]; intros s Hkey Hnd Hin.
  - cbn. rewrite app_nil_r. now destruct s as [[] ?].
  - inversion Hnd as [|? ? Hk Hnd']; subst.
    destruct (Hin k) as [one Hone]; [left|].
    cbn [range_passengers]. unfold bind at 1, get_bus. rewrite Hone.
    unfold bind at 1. rewrite Remove_spec.
    rewrite (Hkey _ _ Hone). rewrite IH; cbn.
    + rewrite <- delete_foldr_delete, <- app_assoc. reflexivity.
    + now apply keyed_delete.
    + assumption.
    + intros j Hj. rewrite lookup_delete_ne; [apply Hin; now right|].
      intros ->. contradiction.
Qed.

Lemma range_order_NoDup (order : gmap string Passenger -> list string)
    (m : gmap string Passenger) :
  range_order order -> NoDup (order m).
Proof. intros H. rewrite (H m). apply NoDup_fst_map_to_list. Qed.

Lemma range_order_elem (order : gmap string Passenger -> list string)
    (m : gmap string Passenger) (k : string) :
  range_order order -> k ∈ order m <-> is_Some (m !! k).
Proof.
  intros H. rewrite (H m), list_elem_of_fmap. split.
  - intros [[j p] [-> Hp]]. apply elem_of_map_to_list in Hp. cbn. eauto.
  - intros [p Hp]. exists (k, p). split; [reflexivity|].
    now apply elem_of_map_to_list.
Qed.

Lemma key_order_range_order : range_order key_order.
Proof. intros m. reflexivity. Qed.

Lemma foldr_delete_all (m : gmap string Passenger) (ks : list string) :
  (forall k, is_Some (m !! k) -> k ∈ ks) -> foldr delete m ks = ∅.
Proof.
  intros H. apply map_empty. intros k.
  destruct (decide (k ∈ ks)) as [Hk|Hk].
  - now apply lookup_foldr_delete.
  - rewrite lookup_foldr_delete_not_elem_of by assumption.
    destruct (m !! k) eqn:E; [|reflexivity]. destruct Hk. apply H. eauto.
Qed.

(** ** Frame: what the arrival protocol leaves alone *)

Create HintDb route.

Lemma keeps_route_ret {A} (a : A) : keeps_route (ret a).
Proof. intros s r s' [= <- <-]. auto. Qed.

Lemma keeps_route_lift {A} (x : result A) : keeps_route (lift x).
Proof. intros s r s' [= <- <-]. auto. Qed.

Lemma keeps_route_get_bus : keeps_route get_bus.
Proof. intros s r s' [= <- <-]. auto. Qed.

Lemma keeps_route_emit (e : Event) : keeps_route (emit e).
Proof. intros s r s' [= <- <-]. auto. Qed.

Lemma keeps_route_bind {A B} (m : M A) (k : A -> M B) :
  keeps_route m -> (forall a, keeps_route (k a)) -> keeps_route (bind m k).
Proof.
  intros Hm Hk s r s' H. apply bind_inv in H as [(a & s1 & H1 & H2)|(v & H1 & _)].
  - apply Hm in H1. apply Hk in H2. intuition congruence.
  - now apply Hm in H1.
Qed.

Lemma keeps_route_set_passengers (f : Bus -> gmap string Passenger) :
  keeps_route (modify_bus (fun b => set_passengers (f b) b)).
Proof. intros s r s' [= <- <-]. cbn. auto. Qed.

#[local] Hint Resolve keeps_route_ret keeps_route_lift keeps_route_get_bus
  keeps_route_emit keeps_route_bind keeps_route_set_passengers : route.

Lemma keeps_route_add (p : Passenger) : keeps_route (add p).
Proof. unfold add. auto 10 with route. Qed.

Lemma keeps_route_Remove (p : Passenger) : keeps_route (Remove p).
Proof. unfold Remove. auto 10 with route. Qed.

Lemma keeps_route_Charge (p : Passenger) (a : float) : keeps_route (Charge p a).
Proof. unfold Charge. destruct (HasValidTicket p); auto 10 with route. Qed.

Lemma keeps_route_UpdatePassengers (visitor : Passenger -> Passenger) :
  keeps_route (UpdatePassengers visitor).
Proof. unfold UpdatePassengers. auto with route. Qed.

Lemma keeps_route_GetPricing (c : BusCompany) (wd : Weekday) (p : Passenger) :
  keeps_route (GetPricing c wd p).
Proof.
  destruct (GetPricing_cases c wd) as [-> | ->];
    unfold WeekendPricing, WorkdayPricing;
    apply keeps_route_bind; auto with route; intros []; auto with route.
Qed.

#[local] Hint Resolve keeps_route_add keeps_route_Remove keeps_route_Charge
  keeps_route_GetPricing : route.

Lemma keeps_route_Board (p : Passenger) (chargeFn : PriceCalculator) :
  keeps_route (chargeFn p) -> keeps_route (Board p chargeFn).
Proof.
  intros H. unfold Board. apply keeps_route_bind.
  - destruct (HasValidTicket p); auto 10 with route.
  - intros [q []]; cbn; auto 10 with route.
Qed.

Lemma keeps_route_range_passengers (ks : list string)
    (visitor : Passenger -> M unit) :
  (forall p, keeps_route (visitor p)) ->
  keeps_route (range_passengers ks visitor).
Proof.
  intros H. induction ks as [|k ks IH]; cbn [range_passengers]; auto with route.
  apply keeps_route_bind; auto with route.
  intros b. destruct (passengers b !! k); auto with route.
Qed.

Lemma keeps_route_VisitPassengers
    (order : gmap string Passenger -> list string)
    (visitor : Passenger -> M unit) :
  (forall p, keeps_route (visitor p)) ->
  keeps_route (VisitPassengers order visitor).
Proof.
  intros H. unfold VisitPassengers.
  apply keeps_route_bind; auto using keeps_route_range_passengers with route.
Qed.

Lemma keeps_route_for_each {A} (l : list A) (body : A -> M unit) :
  (forall x, keeps_route (body x)) -> keeps_route (for_each l body).
Proof. intros H. induction l; cbn [for_each]; auto with route. Qed.

Lemma keeps_route_alight (heap : Heap) (p : Passenger) :
  keeps_route (alight heap p).
Proof.
  unfold alight. repeat (apply keeps_route_bind; auto with route; intros ?).
  destruct a1; auto with route.
Qed.

Lemma keeps_route_board_prospect (heap : Heap) (today : Weekday) (p : Prospect) :
  keeps_route (board_prospect heap today p).
Proof.
  unfold board_prospect. repeat (apply keeps_route_bind; auto with route; intros ?).
  destruct a0; auto using keeps_route_Board with route.
Qed.

Lemma keeps_route_NotifyBusArrival (heap : Heap) (today : Weekday)
    (order : gmap string Passenger -> list string) (b : ptr) :
  keeps_route (NotifyBusArrival heap today order b).
Proof.
  unfold NotifyBusArrival.
  apply keeps_route_bind;
    [apply keeps_route_VisitPassengers, keeps_route_alight|intros _].
  apply keeps_route_bind; auto with route. intros s.
  apply keeps_route_for_each, keeps_route_board_prospect.
Qed.

(** ** Go *)

Lemma wrap16_range (z : Z) : -32768 <= wrap16 z <= 32767.
Proof. unfold wrap16. pose proof (Z.mod_pos_bound (z + 32768) 65536). lia. Qed.

Lemma wrap16_small (z : Z) : -32768 <= z <= 32767 -> wrap16 z = z.
Proof. intros H. unfold wrap16. rewrite Z.mod_small; lia. Qed.

Lemma wrap16_idem (z : Z) : wrap16 (wrap16 z) = wrap16 z.
Proof. apply wrap16_small, wrap16_range. Qed.

Section GoFacts.

Variable heap : Heap.
Variable today : Weekday.
Variable order : gmap string Passenger -> list string.

(** The branch taken when the new position is the last index. *)
Lemma Go_terminal (s : State) :
  wrap16 (currentStop (bus s) + 1)
  = wrap16 (Z.of_nat (length (stops (bus s))) - 1) ->
  Go heap today order s
  = (emit (EndOfLine (name (bus s))) ;;;
     VisitPassengers order Remove ;;;
     ret false)
      (mkState (set_currentStop (wrap16 (currentStop (bus s) + 1)) (bus s))
               (out s)).
Proof.
  intros H. unfold Go. unfold bind at 1, modify_bus. unfold bind at 1, get_bus.
  cbn [bus out stops currentStop set_currentStop name].
  rewrite H, Z.eqb_refl. reflexivity.
Qed.

(** The branch taken otherwise. *)
Lemma Go_en_route (s : State) :
  wrap16 (currentStop (bus s) + 1)
  <> wrap16 (Z.of_nat (length (stops (bus s))) - 1) ->
  Go heap today order s
  = ((if wrap16 (currentStop (bus s) + 1) =? 0
      then emit (Starting (name (bus s)))
      else emit (Carrying (name (bus s)) (size (passengers (bus s))))) ;;;
     curr <- lift (index (stops (bus s)) (wrap16 (currentStop (bus s) + 1))) ;;
     s0 <- lift (deref heap curr) ;;
     emit (Arriving (name (bus s)) (Name s0)) ;;;
     NotifyBusArrival heap today order curr ;;;
     b' <- get_bus ;;
     ret (currentStop b' <? wrap16 (Z.of_nat (length (stops (bus s))) - 1)))
      (mkState (set_currentStop (wrap16 (currentStop (bus s) + 1)) (bus s))
               (out s)).
Proof.
  intros H. unfold Go. unfold bind at 1, modify_bus. unfold bind at 1, get_bus.
  cbn [bus out stops currentStop set_currentStop name passengers].
  apply Z.eqb_neq in H. rewrite H. reflexivity.
Qed.

(** However [Go] ends, it has moved the position by one step of [int16]
    and left the route as it was. *)
Lemma Go_position (s s' : State) (r : result bool) :
  Go heap today order s = (r, s') ->
  stops (bus s') = stops (bus s) /\
  currentStop (bus s') = wrap16 (currentStop (bus s) + 1) /\
  name (bus s') = name (bus s).
Proof.
  destruct (decide (wrap16 (currentStop (bus s) + 1)
                    = wrap16 (Z.of_nat (length (stops (bus s))) - 1))) as [E|E].
  - rewrite (Go_terminal _ E). intros H.
    assert (K : keeps_route (emit (EndOfLine (name (bus s))) ;;;
                             VisitPassengers order Remove ;;; ret false)).
    { auto 10 using keeps_route_VisitPassengers with route. }
    apply K in H. cbn in H. tauto.
  - rewrite (Go_en_route _ E). intros H.
    match type of H with ?m _ = _ => assert (K : keeps_route m) end.
    { apply keeps_route_bind; [case (_ =? _); auto with route|intros _].
      apply keeps_route_bind; [auto with route|intros curr].
      apply keeps_route_bind; [auto with route|intros s0].
      apply keeps_route_bind; [auto with route|intros _].
      apply keeps_route_bind; [apply keeps_route_NotifyBusArrival|intros _].
      auto with route. }
    apply K in H. cbn in H. tauto.
Qed.

(** When [Go] returns, the new position is the last index or the index of
    the stop it arrived at. *)
Lemma Go_returns_on_route (s s' : State) (r : bool) :
  Go heap today order s = (Ret r, s') ->
  currentStop (bus s') = wrap16 (Z.of_nat (length (stops (bus s))) - 1) \/
  0 <= currentStop (bus s') < Z.of_nat (length (stops (bus s))).
Proof.
  intros H. destruct (Go_position _ _ _ H) as (_ & Hc & _). rewrite Hc.
  destruct (decide (wrap16 (currentStop (bus s) + 1)
                    = wrap16 (Z.of_nat (length (stops (bus s))) - 1))) as [E|E];
    [now left | right].
  rewrite (Go_en_route _ E) in H.
  apply bind_inv in H as [(_ & s1 & _ & H)|(v & _ & ?)]; [|discriminate].
  apply bind_inv in H as [(curr & s2 & H & _)|(v & _ & ?)]; [|discriminate].
  injection H as H _. now apply index_Ret_inv in H.
Qed.

Lemma NewBus_on_route (n : string) : on_route (NewBus n).
Proof. unfold on_route. cbn. lia. Qed.

Lemma AddStop_on_route (busStop : ptr) (s : State) :
  on_route (bus s) -> on_route (bus (snd (AddStop busStop s))).
Proof. unfold on_route. cbn. rewrite length_app. cbn. lia. Qed.

(** One returning [Go] from a position on a route of at most 32768
    stops: the position grows by one and is still on the route. *)
Lemma Go_step (s s' : State) (r : bool) :
  on_route (bus s) -> Z.of_nat (length (stops (bus s))) <= 32768 ->
  Go heap today order s = (Ret r, s') ->
  stops (bus s') = stops (bus s) /\
  currentStop (bus s') = currentStop (bus s) + 1 /\
  on_route (bus s').
Proof.
  unfold on_route. intros Hon Hlen H.
  destruct (Go_position _ _ _ H) as (Hs & Hc & _).
  pose proof (Go_returns_on_route _ _ _ H) as Hr.
  rewrite (wrap16_small (Z.of_nat (length (stops (bus s))) - 1)) in Hr by lia.
  rewrite Hs. split; [reflexivity|].
  destruct (decide (currentStop (bus s) = 32767)) as [E|E].
  - rewrite E in Hc. change (wrap16 (32767 + 1)) with (-32768) in Hc. lia.
  - rewrite wrap16_small in Hc by lia. lia.
Qed.

End GoFacts.

(** C4, amended. From a position that is -1 or an index of a route of at
    most 32768 stops, if [n] calls of [Go] in a row all return, then after
    each of them, the [k]-th, the route is unchanged, the position is the
    starting position plus [k], and it is at most the last index. *)
Theorem advance_position (heap : Heap) (today : Weekday)
    (order : gmap string Passenger -> list string) (n : nat) :
  forall s s' : State,
    on_route (bus s) -> Z.of_nat (length (stops (bus s))) <= 32768 ->
    advance heap today order n s = (Ret tt, s') ->
    forall k : nat, (k <= n)%nat ->
      exists sk, advance heap today order k s = (Ret tt, sk) /\
                 stops (bus sk) = stops (bus s) /\
                 currentStop (bus sk) = currentStop (bus s) + Z.of_nat k /\
                 on_route (bus sk).
Proof.
  induction n as [|n IH]; intros s s' Hon Hlen H k Hk.
  - assert (k = O) as -> by lia. exists s. cbn. rewrite Z.add_0_r. auto.
  - destruct k as [|k].
    + exists s. cbn. rewrite Z.add_0_r. auto.
    + cbn [advance] in H.
      apply bind_inv in H as [(r & s1 & HGo & H)|(v & _ & ?)]; [|discriminate].
      destruct (Go_step _ _ _ _ _ _ Hon Hlen HGo) as (Hs & Hc & Hon1).
      destruct (IH s1 s' Hon1 ltac:(now rewrite Hs) H k ltac:(lia))
        as (sk & Hk1 & Hsk & Hck & Honk).
      exists sk. cbn [advance]. rewrite (bind_Ret _ _ _ _ _ HGo).
      repeat split; [assumption | congruence | lia | apply Honk | apply Honk].
Qed.

Lemma advance_position_witness :
  exists sk, advance main_heap Monday key_order 3 expressLine = (Ret tt, sk) /\
             stops (bus sk) = stops (bus expressLine) /\
             currentStop (bus sk) = currentStop (bus expressLine) + Z.of_nat 3 /\
             on_route (bus sk).
Proof.
  apply (advance_position main_heap Monday key_order 3 expressLine
           (snd (advance main_heap Monday key_order 3 expressLine))).
  - unfold on_route. cbn. lia.
  - cbn. lia.
  - vm_compute. reflexivity.
  - lia.
Defined.

(** A line with one stop: the first [Go] ends the line at position 0, the
    last index; a second [Go] moves the position to 1, past the route,
    before it panics.  The counterexample of C4. *)
Lemma Go_past_the_terminal_stop :
  let r1 := Go stops_heap Monday key_order shortLine in
  let r2 := Go stops_heap Monday key_order (snd r1) in
  fst r1 = Ret false /\ currentStop (bus (snd r1)) = 0 /\
  fst r2 = Panic (IndexOutOfRange 1 1) /\
  currentStop (bus (snd r2)) = 1 /\
  Z.of_nat (length (stops (bus (snd r2)))) - 1 = 0 /\
  ~ currentStop (bus (snd r2)) <= Z.of_nat (length (stops (bus (snd r2)))) - 1.
Proof. vm_compute. repeat split. intros H. now apply H. Qed.

(** An advance made at the last index moves the position past the route
    and panics on the index, whatever the route. *)
Lemma Go_at_last_index_panics (heap : Heap) (today : Weekday)
    (order : gmap string Passenger -> list string) (s : State) :
  currentStop (bus s) = Z.of_nat (length (stops (bus s))) - 1 ->
  0 < Z.of_nat (length (stops (bus s))) <= 32767 ->
  exists s', Go heap today order s
             = (Panic (IndexOutOfRange (Z.of_nat (length (stops (bus s))))
                                       (length (stops (bus s)))), s') /\
             currentStop (bus s') = Z.of_nat (length (stops (bus s))).
Proof.
  intros Hc Hlen.
  assert (E1 : wrap16 (currentStop (bus s) + 1) = Z.of_nat (length (stops (bus s)))).
  { rewrite wrap16_small; lia. }
  assert (E2 : wrap16 (Z.of_nat (length (stops (bus s))) - 1)
               = Z.of_nat (length (stops (bus s))) - 1).
  { rewrite wrap16_small; lia. }
  rewrite Go_en_route by lia. rewrite E1.
  destruct (Z.eqb_spec (Z.of_nat (length (stops (bus s)))) 0) as [?|_]; [lia|].
  unfold bind at 1, emit. unfold bind at 1, lift.
  rewrite index_out_of_range by (cbn; lia).
  eexists. split; [reflexivity|]. reflexivity.
Qed.

(** C1, amended. On a bus whose passengers are stored under their own
    SSN, a [Go] that moves the position to the last index removes every
    passenger, whatever the destinations and the stops are: the set is
    empty, the call returns false, and one line is printed for the end
    of the line and one per passenger removed. *)
Theorem Go_terminal_empties (heap : Heap) (today : Weekday)
    (order : gmap string Passenger -> list string) (s : State) :
  range_order order ->
  keyed (passengers (bus s)) ->
  wrap16 (currentStop (bus s) + 1) = Z.of_nat (length (stops (bus s))) - 1 ->
  Go heap today order s
  = (Ret false,
     mkState (set_passengers ∅
                (set_currentStop (Z.of_nat (length (stops (bus s))) - 1) (bus s)))
             (out s ++ EndOfLine (name (bus s))
                :: map (Unboarded (name (bus s))) (order (passengers (bus s))))).
Proof.
  intros Hord Hkey Hc.
  rewrite Go_terminal by (now rewrite <- Hc, wrap16_idem).
  rewrite Hc. unfold bind at 1, emit. cbn [bus out].
  unfold bind at 1, VisitPassengers. unfold bind at 1, get_bus. cbn [bus out].
  rewrite range_Remove_keyed; cbn.
  - rewrite foldr_delete_all.
    + unfold ret. now rewrite <- app_assoc.
    + intros k Hk. now apply range_order_elem.
  - assumption.
  - now apply range_order_NoDup.
  - intros k Hk. now apply (range_order_elem order).
Qed.

Lemma Go_terminal_empties_witness :
  let s := snd (advance main_heap Monday key_order 2 expressLine) in
  passengers (bus s) !! "11223322-67"
  = Some (mkPassenger "11223322-67" 0 (Some TheVillage) true) /\
  Go main_heap Monday key_order s
  = (Ret false,
     mkState (set_passengers ∅ (set_currentStop 2 (bus s)))
             (out s ++ [EndOfLine "Express Line";
                        Unboarded "Express Line" "11223322-67"])).
Proof.
  split; [vm_compute; reflexivity|].
  assert (H1 : range_order key_order) by (intros m; reflexivity).
  assert (H2 : keyed (passengers (bus (snd (advance main_heap Monday key_order 2
                                              expressLine))))).
  { apply (bool_decide_unpack _). vm_compute. reflexivity. }
  pose proof (Go_terminal_empties main_heap Monday key_order
                (snd (advance main_heap Monday key_order 2 expressLine))
                H1 H2 ltac:(vm_compute; reflexivity)) as H.
  vm_compute in H. vm_compute. exact H.
Defined.

(** A passenger renamed through [UpdatePassengers] stays under the old
    key, and the end of the line deletes the new SSN: the passenger is
    still in the set after the [Go] that ends the line.  The
    counterexample of C1. *)
Lemma Go_terminal_keeps_renamed_rider :
  let r := Go stops_heap Monday key_order renamedLine in
  wrap16 (currentStop (bus renamedLine) + 1)
  = Z.of_nat (length (stops (bus renamedLine))) - 1 /\
  fst r = Ret false /\
  passengers (bus (snd r)) !! "11223322-67"
  = Some (mkPassenger "99887766-55" 0 (Some Downtown) true) /\
  size (passengers (bus (snd r))) = 1%nat.
Proof.
  cbv zeta. split; [|split; [|split]]; vm_compute; reflexivity.
Qed.

(** At the end of the line only the keys the [range] produces matter. *)
Lemma Go_terminal_order (heap : Heap) (today : Weekday)
    (order order' : gmap string Passenger -> list string) (s : State) :
  wrap16 (currentStop (bus s) + 1)
  = wrap16 (Z.of_nat (length (stops (bus s))) - 1) ->
  order (passengers (bus s)) = order' (passengers (bus s)) ->
  Go heap today order s = Go heap today order' s.
Proof.
  intros Hc E. rewrite !Go_terminal by assumption.
  unfold VisitPassengers, bind, emit, get_bus.
  cbn [bus out set_currentStop passengers]. now rewrite E.
Qed.

(** The same under every order of the [range]: the set has one key. *)
Lemma renamed_rider_stays_any_order
    (order : gmap string Passenger -> list string) :
  range_order order ->
  Go stops_heap Monday order renamedLine
  = Go stops_heap Monday key_order renamedLine.
Proof.
  intros H. apply Go_terminal_order; [vm_compute; reflexivity|].
  assert (Hk : key_order (passengers (bus renamedLine)) = ["11223322-67"])
    by (vm_compute; reflexivity).
  rewrite Hk. apply Permutation_singleton_r. rewrite <- Hk. apply H.
Qed.

(** Wrap-around of the [int16] position: on a route of 32769 stops the
    last index is -32768, and the advance made at position 32767 ends the
    line there. *)
Example Go_wraps_position :
  let s := mkState (mkBus EmptyString "Long Line" ∅
                      (replicate (Z.to_nat 32769) (Some Downtown)) 32767) [] in
  fst (Go stops_heap Monday key_order s) = Ret false /\
  currentStop (bus (snd (Go stops_heap Monday key_order s))) = -32768.
Proof. cbv zeta. split; vm_compute; reflexivity. Qed.

(** ** NotifyBusArrival *)

Section Arrival.

Variable heap : Heap.
Variable today : Weekday.
Variable order : gmap string Passenger -> list string.

Lemma route_has_stops (b b' : Bus) (d : ptr) :
  stops b' = stops b -> route_has heap b d -> route_has heap b' d.
Proof. intros E (l & l' & H). exists l, l'. now rewrite E. Qed.

Lemma Equals_true (p q : ptr) :
  Equals heap p q = Ret true ->
  exists l l', p = Some l /\ q = Some l' /\ Name (heap l) = Name (heap l').
Proof.
  destruct p as [l|], q as [l'|]; cbn; try discriminate.
  intros [= H]. apply String.eqb_eq in H. eauto.
Qed.

(** StopsAt answers true only for a stop whose name is on the route. *)
Lemma StopsAt_true_route_has (b : Bus) (d : ptr) :
  StopsAt heap b d = Ret true -> route_has heap b d.
Proof.
  unfold StopsAt, route_has. induction (stops b) as [|stop l IH]; cbn.
  - discriminate.
  - destruct (Equals heap stop d) as [[]|v] eqn:E; cbn.
    + intros _. apply Equals_true in E as (l1 & l2 & -> & -> & E).
      exists l1, l2. split; [left | auto].
    + intros H. destruct (IH H) as (l1 & l2 & H1 & H2).
      exists l1, l2. split; [now right | assumption].
    + discriminate.
Qed.

(** A calculator of the package reads the passenger only: it returns or
    panics in the state it was called in. *)
Lemma GetPricing_pure (c : BusCompany) (p : Passenger) (s : State) :
  exists r, GetPricing c today p s = (r, s).
Proof.
  destruct (GetPricing_cases c today) as [-> | ->];
    unfold WeekendPricing, WorkdayPricing, bind, lift;
    destruct (IsSenior p) as [[]|v]; eauto.
Qed.

(** One turn of the alighting loop removes the passenger or nothing. *)
Lemma alight_cases (p : Passenger) (s s1 : State) (r : result unit) :
  alight heap p s = (r, s1) -> s1 = s \/ s1 = snd (Remove p s).
Proof.
  unfold alight. unfold bind at 1, get_bus. unfold bind at 1, lift.
  destruct (CurrentStop (bus s)) as [cur|v]; [|intros [= _ <-]; now left].
  unfold bind at 1. destruct (Equals heap cur (Destination p)) as [[]|v].
  - intros H. right. now rewrite H.
  - intros [= _ <-]. now left.
  - intros [= _ <-]. now left.
Qed.

(** One turn of the boarding loop: nothing happens, or the bus stops at
    the prospect's destination and the prospect is charged and boarded. *)
Lemma board_prospect_cases (w : Prospect) (s s1 : State) (r : result unit) :
  board_prospect heap today w s = (r, s1) ->
  s1 = s \/
  (StopsAt heap (bus s) (Prospect_Destination w) = Ret true /\
   exists amount,
     s1 = mkState
            (set_passengers
               (<[Prospect_SSN w := set_HasValidTicket true (ToPassenger w)]>
                  (passengers (bus s)))
               (bus s))
            ((out s ++ [Charged (Prospect_SSN w) amount])
             ++ [Boarded (name (bus s)) (Prospect_SSN w)])).
Proof.
  unfold board_prospect. unfold bind at 1, get_bus. unfold bind at 1, lift.
  destruct (StopsAt heap (bus s) (Prospect_Destination w)) as [[]|v];
    [|intros [= _ <-]; now left|intros [= _ <-]; now left].
  unfold bind at 1.
  destruct (GetPricing_pure (Company (bus s)) (ToPassenger w) s) as [[amount|v] Hp].
  - rewrite (Board_charged (ToPassenger w) _ _ _ _ eq_refl Hp).
    intros [= _ <-]. right. split; [reflexivity|]. now exists amount.
  - rewrite (Board_charge_panics (ToPassenger w) _ _ _ _ eq_refl Hp).
    intros [= _ <-]. now left.
Qed.

(** The alighting loop only takes passengers away and prints no charge
    and no boarding. *)
Lemma alight_loop (ks : list string) :
  forall (s s1 : State) (r : result unit),
    range_passengers ks (alight heap) s = (r, s1) ->
    stops (bus s1) = stops (bus s) /\ name (bus s1) = name (bus s) /\
    (forall k p, passengers (bus s1) !! k = Some p ->
                 passengers (bus s) !! k = Some p) /\
    exists evs, out s1 = out s ++ evs /\
                forall e, e ∈ evs -> boarding_of e = None.
Proof.
  induction ks as [|k ks IH]; intros s s1 r; cbn [range_passengers].
  - intros [= _ <-]. repeat split; auto. exists []. rewrite app_nil_r.
    split; [reflexivity|]. intros e He. inversion He.
  - unfold bind at 1, get_bus. destruct (passengers (bus s) !! k) as [one|]; [|apply IH].
    intros H. apply bind_inv in H as [([] & s2 & Ha & H)|(v & Ha & _)].
    + apply IH in H as (Hs & Hn & Hm & evs & Ho & He).
      apply alight_cases in Ha as [->| ->]; [repeat split; eauto|].
      cbn in *. repeat split; auto.
      * intros j p Hj. apply Hm in Hj. apply lookup_delete_Some in Hj. tauto.
      * eexists. rewrite Ho, <- app_assoc. split; [reflexivity|].
        intros e [->|He']%elem_of_cons; [reflexivity | auto].
    + apply alight_cases in Ha as [->| ->].
      * repeat split; auto. exists []. rewrite app_nil_r.
        split; [reflexivity|]. intros e He. inversion He.
      * cbn. repeat split; auto.
        -- intros j p Hj. apply lookup_delete_Some in Hj. tauto.
        -- eexists. split; [reflexivity|].
           intros e ->%list_elem_of_singleton. reflexivity.
Qed.

(** The boarding loop: whoever is new in the set, and whoever a line of
    output charges or boards, is a prospect of the list for whom StopsAt
    answered true. *)
Lemma board_loop (l : list Prospect) :
  forall (s s1 : State) (r : result unit),
    for_each l (board_prospect heap today) s = (r, s1) ->
    stops (bus s1) = stops (bus s) /\ name (bus s1) = name (bus s) /\
    (forall k p, passengers (bus s1) !! k = Some p ->
       passengers (bus s) !! k = Some p \/
       exists w, w ∈ l /\ route_has heap (bus s) (Prospect_Destination w) /\
                 Prospect_SSN w = k /\
                 p = set_HasValidTicket true (ToPassenger w)) /\
    exists evs, out s1 = out s ++ evs /\
      forall e ssn, e ∈ evs -> boarding_of e = Some ssn ->
        exists w, w ∈ l /\ route_has heap (bus s) (Prospect_Destination w) /\
                  Prospect_SSN w = ssn.
Proof.
  induction l as [|w l IH]; intros s s1 r; cbn [for_each].
  - intros [= _ <-]. repeat split; auto. exists []. rewrite app_nil_r.
    split; [reflexivity|]. intros e ssn He. inversion He.
  - intros H.
    assert (Hcut : exists r2 s2,
               board_prospect heap today w s = (r2, s2) /\
               (s1 = s2 \/ for_each l (board_prospect heap today) s2 = (r, s1))).
    { apply bind_inv in H as [([] & s2 & Hb & H)|(v & Hb & _)]; eauto 6. }
    clear H. destruct Hcut as (r2 & s2 & Hb & Hrest).
    assert (Hl : stops (bus s1) = stops (bus s2) /\ name (bus s1) = name (bus s2) /\
      (forall k p, passengers (bus s1) !! k = Some p ->
         passengers (bus s2) !! k = Some p \/
         exists w, w ∈ l /\ route_has heap (bus s2) (Prospect_Destination w) /\
                   Prospect_SSN w = k /\
                   p = set_HasValidTicket true (ToPassenger w)) /\
      exists evs, out s1 = out s2 ++ evs /\
        forall e ssn, e ∈ evs -> boarding_of e = Some ssn ->
          exists w, w ∈ l /\ route_has heap (bus s2) (Prospect_Destination w) /\
                    Prospect_SSN w = ssn).
    { destruct Hrest as [->|Hrest]; [|now apply IH in Hrest].
      repeat split; auto. exists []. rewrite app_nil_r.
      split; [reflexivity|]. intros e ssn He. inversion He. }
    clear Hrest IH. destruct Hl as (Hs & Hn & Hm & evs & Ho & He).
    apply board_prospect_cases in Hb as [->|(Hst & amount & ->)].
    + repeat split; auto.
      * intros k p Hk. destruct (Hm k p Hk) as [?|(w' & ? & ?)]; [now left|].
        right. exists w'. split; [now right | assumption].
      * exists evs. split; [assumption|]. intros e ssn Hin Hb.
        destruct (He e ssn Hin Hb) as (w' & ? & ?).
        exists w'. split; [now right | assumption].
    + apply StopsAt_true_route_has in Hst. cbn in *. repeat split; auto.
      * intros k p Hk. destruct (Hm k p Hk) as [Hk'|(w' & ? & Hr & ?)].
        -- apply lookup_insert_Some in Hk' as [[<- <-]|[_ ?]]; [|now left].
           right. exists w. repeat split; [now left | assumption].
        -- right. exists w'. repeat split; [now right | | tauto | tauto].
           revert Hr. now apply route_has_stops.
      * eexists. rewrite Ho, <- !app_assoc. split; [reflexivity|].
        intros e ssn Hin Hb. cbn in Hin.
        apply elem_of_cons in Hin as [->|Hin];
          [injection Hb as <-; exists w; repeat split; [now left | assumption]|].
        apply elem_of_cons in Hin as [->|Hin];
          [injection Hb as <-; exists w; repeat split; [now left | assumption]|].
        destruct (He e ssn Hin Hb) as (w' & ? & Hr & ?).
        exists w'. repeat split; [now right | | assumption].
        revert Hr. now apply route_has_stops.
Qed.

End Arrival.

(** C2. After the arrival protocol of a stop, however it ended, a
    passenger of the bus was already on it with the same record, or is a
    prospect waiting at that stop whose destination has the name of a
    stop of the route, converted and ticketed; and every charge and every
    boarding printed is that of such a prospect. *)
Theorem NotifyBusArrival_boards_route_prospects (heap : Heap) (today : Weekday)
    (order : gmap string Passenger -> list string) (stop : ptr)
    (s s1 : State) (r : result unit) :
  NotifyBusArrival heap today order stop s = (r, s1) ->
  (forall k p, passengers (bus s1) !! k = Some p ->
     passengers (bus s) !! k = Some p \/
     exists w, waits_at heap stop w /\
               route_has heap (bus s) (Prospect_Destination w) /\
               Prospect_SSN w = k /\
               p = set_HasValidTicket true (ToPassenger w)) /\
  exists evs, out s1 = out s ++ evs /\
    forall e ssn, e ∈ evs -> boarding_of e = Some ssn ->
      exists w, waits_at heap stop w /\
                route_has heap (bus s) (Prospect_Destination w) /\
                Prospect_SSN w = ssn.
Proof.
  unfold NotifyBusArrival. intros H.
  assert (Hcut : exists r2 s2,
             range_passengers (order (passengers (bus s))) (alight heap) s
             = (r2, s2) /\
             (s1 = s2 \/
              exists l, stop = Some l /\
                for_each (prospects (heap l)) (board_prospect heap today) s2
                = (r, s1))).
  { apply bind_inv in H as [([] & s2 & Ha & H)|(v & Ha & _)].
    - exists (Ret tt), s2. split; [exact Ha|].
      destruct stop as [l|]; [right | left].
      + exists l. split; [reflexivity | exact H].
      + cbn in H. now injection H as _ <-.
    - exists (Panic v), s1. split; [exact Ha | now left]. }
  clear H. destruct Hcut as (r2 & s2 & Ha & Hrest).
  apply alight_loop in Ha as (Hs & Hn & Hm & evs & Ho & He).
  destruct Hrest as [->|(l & -> & Hb)].
  - split; [intros k p Hk; left; now apply Hm|].
    exists evs. split; [assumption|]. intros e ssn Hin Hb.
    rewrite (He e Hin) in Hb. discriminate.
  - apply board_loop in Hb as (Hs' & Hn' & Hm' & evs' & Ho' & He'). split.
    + intros k p Hk. destruct (Hm' k p Hk) as [?|(w & Hw & Hr & Hk' & Hp)].
      * left. now apply Hm.
      * right. exists w. repeat split; [exists l; auto | | assumption | assumption].
        revert Hr. now apply route_has_stops.
    + exists (evs ++ evs'). rewrite Ho', Ho, app_assoc. split; [reflexivity|].
      intros e ssn [Hin|Hin]%elem_of_app Hb.
      * rewrite (He e Hin) in Hb. discriminate.
      * destruct (He' e ssn Hin Hb) as (w & Hw & Hr & Hk').
        exists w. repeat split; [exists l; auto | | assumption].
        revert Hr. now apply route_has_stops.
Qed.

Lemma NotifyBusArrival_boards_route_prospects_witness :
  let s := expressLine in
  let s1 := snd (NotifyBusArrival main_heap Monday key_order (Some Downtown) s) in
  passengers (bus s1) !! "12345612-22"
  = Some (mkPassenger "12345612-22" 0 (Some TheUniversity) true) /\
  ((forall k p, passengers (bus s1) !! k = Some p ->
      passengers (bus s) !! k = Some p \/
      exists w, waits_at main_heap (Some Downtown) w /\
                route_has main_heap (bus s) (Prospect_Destination w) /\
                Prospect_SSN w = k /\
                p = set_HasValidTicket true (ToPassenger w)) /\
   exists evs, out s1 = out s ++ evs /\
     forall e ssn, e ∈ evs -> boarding_of e = Some ssn ->
       exists w, waits_at main_heap (Some Downtown) w /\
                 route_has main_heap (bus s) (Prospect_Destination w) /\
                 Prospect_SSN w = ssn).
Proof.
  cbv zeta. split; [vm_compute; reflexivity|].
  apply (NotifyBusArrival_boards_route_prospects main_heap Monday key_order
           (Some Downtown) expressLine _
           (fst (NotifyBusArrival main_heap Monday key_order (Some Downtown)
                   expressLine))).
  vm_compute. reflexivity.
Defined.

(** A prospect whose destination is not on the route stays at the stop:
    the loop turn leaves the state as it was. *)
Lemma board_prospect_off_route (heap : Heap) (today : Weekday) (w : Prospect)
    (s : State) :
  StopsAt heap (bus s) (Prospect_Destination w) = Ret false ->
  board_prospect heap today w s = (Ret tt, s).
Proof.
  intros H. unfold board_prospect. unfold bind at 1, get_bus.
  unfold bind at 1, lift. now rewrite H.
Qed.

(** On a route without a [nil] stop, StopsAt answers true exactly when the
    route has a stop of the destination's name. *)
Lemma StopsAt_iff_route_has (heap : Heap) (b : Bus) (l' : loc) :
  None ∉ stops b ->
  StopsAt heap b (Some l') = Ret true <-> route_has heap b (Some l').
Proof.
  intros Hnil. split; [apply StopsAt_true_route_has|].
  intros (l & l2 & Hin & [= <-] & E). unfold StopsAt.
  induction (stops b) as [|stop rest IH]; [inversion Hin|].
  apply not_elem_of_cons in Hnil as [Hstop Hrest].
  destruct stop as [l0|]; [|congruence]. cbn.
  destruct (String.eqb_spec (Name (heap l0)) (Name (heap l'))) as [_|Hne];
    [reflexivity|].
  apply IH; [assumption|].
  apply elem_of_cons in Hin as [[= ->]|Hin]; [congruence | assumption].
Qed.

(** ** The passenger set stays stored by SSN

    Board stores a passenger under its SSN and Remove deletes by SSN, so
    the arrival protocol and [Go] keep [keyed_bus]; only
    [UpdatePassengers] with a visitor that rewrites the SSN breaks it. *)

Section Keyed.

Variable heap : Heap.
Variable today : Weekday.
Variable order : gmap string Passenger -> list string.

Lemma preserves_ret (I : Bus -> Prop) {A} (a : A) : preserves I (ret a).
Proof. intros s r s' H [= _ <-]. exact H. Qed.

Lemma preserves_lift (I : Bus -> Prop) {A} (x : result A) : preserves I (lift x).
Proof. intros s r s' H [= _ <-]. exact H. Qed.

Lemma preserves_get_bus (I : Bus -> Prop) : preserves I get_bus.
Proof. intros s r s' H [= _ <-]. exact H. Qed.

Lemma preserves_emit (I : Bus -> Prop) (e : Event) : preserves I (emit e).
Proof. intros s r s' H [= _ <-]. exact H. Qed.

Lemma preserves_bind (I : Bus -> Prop) {A B} (m : M A) (k : A -> M B) :
  preserves I m -> (forall a, preserves I (k a)) -> preserves I (bind m k).
Proof.
  intros Hm Hk s r s' HI H.
  apply bind_inv in H as [(a & s1 & H1 & H2)|(v & H1 & _)].
  - eapply Hk; [|exact H2]. eapply Hm; eassumption.
  - eapply Hm; eassumption.
Qed.

Create HintDb keyed.

#[local] Hint Resolve preserves_ret preserves_lift preserves_get_bus
  preserves_emit preserves_bind : keyed.

Lemma NewBus_keyed (n : string) : keyed_bus (NewBus n).
Proof. apply keyed_empty. Qed.

Lemma preserves_keyed_add (p : Passenger) : preserves keyed_bus (add p).
Proof.
  intros s r s' H. rewrite add_spec. intros [= _ <-]. now apply keyed_insert.
Qed.

Lemma preserves_keyed_Remove (p : Passenger) : preserves keyed_bus (Remove p).
Proof.
  intros s r s' H. rewrite Remove_spec. intros [= _ <-]. now apply keyed_delete.
Qed.

Lemma preserves_keyed_AddStop (busStop : ptr) :
  preserves keyed_bus (AddStop busStop).
Proof. intros s r s' H [= _ <-]. exact H. Qed.

Lemma preserves_keyed_Board (p : Passenger) (chargeFn : PriceCalculator) :
  preserves keyed_bus (chargeFn p) -> preserves keyed_bus (Board p chargeFn).
Proof.
  intros Hc s r s' H. destruct (HasValidTicket p) eqn:Ht.
  - rewrite Board_ticketed by assumption. intros [= _ <-].
    now apply keyed_insert.
  - destruct (chargeFn p s) as [[amount|v] s1] eqn:E.
    + rewrite (Board_charged _ _ _ _ _ Ht E). intros [= _ <-].
      apply (keyed_insert _ (set_HasValidTicket true p)). eapply Hc; eassumption.
    + rewrite (Board_charge_panics _ _ _ _ _ Ht E). intros [= _ <-].
      eapply Hc; eassumption.
Qed.

Lemma preserves_GetPricing (I : Bus -> Prop) (c : BusCompany) (p : Passenger) :
  preserves I (GetPricing c today p).
Proof.
  intros s r s' H E. destruct (GetPricing_pure today c p s) as [r' E'].
  rewrite E' in E. now injection E as _ <-.
Qed.

Lemma preserves_range_passengers (I : Bus -> Prop) (ks : list string)
    (visitor : Passenger -> M unit) :
  (forall p, preserves I (visitor p)) ->
  preserves I (range_passengers ks visitor).
Proof.
  intros H. induction ks as [|k ks IH]; cbn [range_passengers]; auto with keyed.
  apply preserves_bind; auto with keyed.
  intros b. destruct (passengers b !! k); auto with keyed.
Qed.

Lemma preserves_for_each (I : Bus -> Prop) {A} (l : list A) (body : A -> M unit) :
  (forall x, preserves I (body x)) -> preserves I (for_each l body).
Proof. intros H. induction l; cbn [for_each]; auto with keyed. Qed.

Lemma preserves_keyed_alight (p : Passenger) :
  preserves keyed_bus (alight heap p).
Proof.
  intros s r s' H E. apply alight_cases in E as [->| ->]; [assumption|].
  now apply keyed_delete.
Qed.

Lemma preserves_keyed_board_prospect (w : Prospect) :
  preserves keyed_bus (board_prospect heap today w).
Proof.
  intros s r s' H E.
  apply board_prospect_cases in E as [->|(_ & amount & ->)]; [assumption|].
  apply (keyed_insert _ (set_HasValidTicket true (ToPassenger w))), H.
Qed.

Lemma preserves_keyed_NotifyBusArrival (b : ptr) :
  preserves keyed_bus (NotifyBusArrival heap today order b).
Proof.
  unfold NotifyBusArrival, VisitPassengers.
  apply preserves_bind; [|intros _].
  - apply preserves_bind; auto with keyed. intros b0.
    apply preserves_range_passengers, preserves_keyed_alight.
  - apply preserves_bind; auto with keyed. intros s.
    apply preserves_for_each, preserves_keyed_board_prospect.
Qed.

Lemma preserves_keyed_Go : preserves keyed_bus (Go heap today order).
Proof.
  intros s r s' H.
  destruct (decide (wrap16 (currentStop (bus s) + 1)
                    = wrap16 (Z.of_nat (length (stops (bus s))) - 1))) as [E|E].
  - rewrite (Go_terminal _ _ _ _ E).
    match goal with |- ?m _ = _ -> _ =>
      assert (K : preserves keyed_bus m); [|intros E'; eapply K; [|exact E']; exact H]
    end.
    apply preserves_bind; auto with keyed. intros _.
    apply preserves_bind; auto with keyed. unfold VisitPassengers.
    apply preserves_bind; auto with keyed. intros b0.
    apply preserves_range_passengers, preserves_keyed_Remove.
  - rewrite (Go_en_route _ _ _ _ E).
    match goal with |- ?m _ = _ -> _ =>
      assert (K : preserves keyed_bus m); [|intros E'; eapply K; [|exact E']; exact H]
    end.
    apply preserves_bind; [case (_ =? _); auto with keyed|intros _].
    apply preserves_bind; [auto with keyed|intros curr].
    apply preserves_bind; [auto with keyed|intros s0].
    apply preserves_bind; [auto with keyed|intros _].
    apply preserves_bind; [apply preserves_keyed_NotifyBusArrival|intros _].
    auto with keyed.
Qed.

(** The renaming visitor is what breaks the invariant. *)
Example UpdatePassengers_breaks_keyed :
  keyed_bus (bus (snd (run (Board (mkPassenger "11223322-67" 0 (Some Downtown) true)
                                  WorkdayPricing) (NewBus "Short Line")))) /\
  ~ keyed_bus (bus renamedLine).
Proof.
  split.
  - apply (bool_decide_unpack _). vm_compute. reflexivity.
  - intros H. specialize (H "11223322-67"
      (mkPassenger "99887766-55" 0 (Some Downtown) true)
      ltac:(vm_compute; reflexivity)).
    discriminate H.
Qed.

End Keyed.

(** ** The driver's run

    [main] on a Monday: both prospects board at Downtown, john leaves at
    The University, and the end of the line at The Village takes betty
    off.  betty is 67 and pays the senior fare. *)

Example main_first_Go :
  let r := Go main_heap Monday key_order expressLine in
  fst r = Ret true /\
  key_order (passengers (bus (snd r))) = ["11223322-67"; "12345612-22"] /\
  out (snd r)
  = [Starting "Express Line"; Arriving "Express Line" "Downtown";
     Charged "12345612-22" 6.0%float; Boarded "Express Line" "12345612-22";
     Charged "11223322-67" 4.5%float; Boarded "Express Line" "11223322-67"].
Proof. cbv zeta. split; [|split]; vm_compute; reflexivity. Qed.

Example main_second_Go :
  let s1 := snd (Go main_heap Monday key_order expressLine) in
  let r := Go main_heap Monday key_order s1 in
  fst r = Ret true /\
  key_order (passengers (bus (snd r))) = ["11223322-67"] /\
  out (snd r)
  = out s1 ++ [Carrying "Express Line" 2;
               Arriving "Express Line" "The University";
               Unboarded "Express Line" "12345612-22"].
Proof. cbv zeta. split; [|split]; vm_compute; reflexivity. Qed.

Example main_third_Go :
  let s2 := snd (advance main_heap Monday key_order 2 expressLine) in
  let r := Go main_heap Monday key_order s2 in
  fst r = Ret false /\
  key_order (passengers (bus (snd r))) = [] /\
  currentStop (bus (snd r)) = 2 /\
  out (snd r)
  = out s2 ++ [EndOfLine "Express Line";
               Unboarded "Express Line" "11223322-67"].
Proof. cbv zeta. split; [|split; [|split]]; vm_compute; reflexivity. Qed.

(** * Further properties of the package *)

(** ** IsSenior: which SSNs it accepts *)

Lemma substring_length (s : string) :
  forall n m : nat,
    (n + m <= String.length s)%nat -> String.length (substring n m s) = m.
Proof.
  induction s as [|c s IH]; intros n m H; cbn in H.
  - destruct n, m; cbn; lia.
  - destruct n as [|n]; [destruct m as [|m]|]; cbn; [reflexivity| |].
    + f_equal. apply IH. lia.
    + apply IH. lia.
Qed.

(** The slice [s[len(s)-2:]] has two bytes. *)
Lemma last_two_bytes (s t : string) :
  last_two s = Ret t ->
  exists c1 c0, t = String c1 (String c0 EmptyString).
Proof.
  unfold last_two. destruct (Nat.ltb_spec (String.length s) 2); [discriminate|].
  intros [= <-].
  pose proof (substring_length s (String.length s - 2) 2 ltac:(lia)) as L.
  destruct (substring _ 2 s) as [|c1 [|c0 [|]]]; cbn in L; try discriminate.
  eauto.
Qed.

Lemma ParseInt_sign_digit (c1 c0 : ascii) (d0 : Z) :
  c1 = "+"%char \/ c1 = "-"%char -> digit_of c0 = Some d0 ->
  ParseInt (String c1 (String c0 EmptyString))
  = inr (if Ascii.eqb c1 "-" then - d0 else d0).
Proof.
  intros Hs H0. pose proof (digit_of_range _ _ H0).
  destruct Hs as [-> | ->]; cbn; rewrite H0; change (0 * 10 + d0) with d0;
    destruct (255 <? d0) eqn:E1; try lia;
    [destruct (128 <=? d0) eqn:E2 | destruct (128 <? d0) eqn:E2];
    try lia; reflexivity.
Qed.

Lemma digit_of_sign (c : ascii) :
  c = "+"%char \/ c = "-"%char -> digit_of c = None.
Proof. intros [-> | ->]; reflexivity. Qed.

(** Two bytes parse only if the second is a digit and the first is a
    digit or a sign. *)
Lemma ParseInt_two_bytes_inr (c1 c0 : ascii) (v : Z) :
  ParseInt (String c1 (String c0 EmptyString)) = inr v ->
  exists d0, digit_of c0 = Some d0 /\
    (is_Some (digit_of c1) \/ c1 = "+"%char \/ c1 = "-"%char).
Proof.
  unfold ParseInt.
  destruct (Ascii.eqb_spec c1 "+") as [->|Hp].
  - cbn. destruct (digit_of c0) as [d0|]; [eauto|discriminate].
  - destruct (Ascii.eqb_spec c1 "-") as [->|Hm].
    + cbn. destruct (digit_of c0) as [d0|]; [eauto|discriminate].
    + cbn [orb ParseUint ParseUint_loop].
      destruct (digit_of c1) as [d1|]; [|discriminate].
      destruct (255 <? 0 * 10 + d1); [discriminate|].
      destruct (digit_of c0) as [d0|]; [eauto|discriminate].
Qed.

(** X1. IsSenior returns exactly on an SSN of at least two bytes whose
    last byte is a decimal digit and whose byte before it is a decimal
    digit or one of the signs + and -; on every other SSN it panics. *)
Theorem IsSenior_returns_shape (p : Passenger) :
  returns (IsSenior p) = true <->
  exists c1 c0 d0,
    last_two (SSN p) = Ret (String c1 (String c0 EmptyString)) /\
    digit_of c0 = Some d0 /\
    (is_Some (digit_of c1) \/ c1 = "+"%char \/ c1 = "-"%char).
Proof.
  rewrite IsSenior_returns_iff. split.
  - intros (s & age & Hs & Ha).
    destruct (last_two_bytes _ _ Hs) as (c1 & c0 & ->).
    destruct (ParseInt_two_bytes_inr _ _ _ Ha) as (d0 & H0 & H1).
    exists c1, c0, d0. auto.
  - intros (c1 & c0 & d0 & Hs & H0 & [[d1 H1]|Hsign]).
    + exists (String c1 (String c0 EmptyString)), (10 * d1 + d0).
      split; [assumption | now apply ParseInt_two_digits].
    + eexists _, _. split; [eassumption | exact (ParseInt_sign_digit _ _ _ Hsign H0)].
Qed.

(** X2. An SSN that ends in a sign and a digit is accepted, and its
    holder is never a senior: the age read is the digit, or minus it. *)
Theorem IsSenior_signed_suffix (p : Passenger) (c1 c0 : ascii) (d0 : Z) :
  last_two (SSN p) = Ret (String c1 (String c0 EmptyString)) ->
  c1 = "+"%char \/ c1 = "-"%char -> digit_of c0 = Some d0 ->
  IsSenior p = Ret false.
Proof.
  intros Hs Hsign H0. pose proof (digit_of_range _ _ H0).
  unfold IsSenior. rewrite Hs. cbn [rbind].
  rewrite (ParseInt_sign_digit _ _ _ Hsign H0). f_equal.
  unfold SeniorAge. apply Z.leb_gt. destruct (Ascii.eqb c1 "-"); lia.
Qed.

Lemma IsSenior_signed_suffix_witness :
  IsSenior (mkPassenger "1234567-9" 0 (Some TheVillage) false) = Ret false.
Proof.
  apply (IsSenior_signed_suffix
           (mkPassenger "1234567-9" 0 (Some TheVillage) false) "-" "9" 9);
    [reflexivity | right; reflexivity | reflexivity].
Defined.

(** X3. On an SSN that ends in two decimal digits IsSenior returns, and
    it returns true exactly when the number the digits write is at least
    65. *)
Theorem IsSenior_two_digit_age (p : Passenger) (c1 c0 : ascii) (d1 d0 : Z) :
  last_two (SSN p) = Ret (String c1 (String c0 EmptyString)) ->
  digit_of c1 = Some d1 -> digit_of c0 = Some d0 ->
  exists b, IsSenior p = Ret b /\ (b = true <-> 65 <= 10 * d1 + d0) /\
            0 <= 10 * d1 + d0 <= 99.
Proof.
  intros Hs H1 H0. exists (65 <=? 10 * d1 + d0).
  pose proof (digit_of_range _ _ H1). pose proof (digit_of_range _ _ H0).
  split; [now apply (IsSenior_two_digits p c1 c0) | split; [apply Z.leb_le | lia]].
Qed.

Lemma IsSenior_two_digit_age_witness :
  exists b, IsSenior (ToPassenger betty) = Ret b /\
            (b = true <-> 65 <= 10 * 6 + 7) /\ 0 <= 10 * 6 + 7 <= 99.
Proof.
  apply (IsSenior_two_digit_age (ToPassenger betty) "6" "7" 6 7); reflexivity.
Defined.

(** ** The passenger set: Manifest, Find, VisitUpdate *)

Lemma Visit_manifest_omap (m : gmap string Passenger) (ks acc : list string) :
  foldl (fun acc k =>
           match m !! k with
           | Some one => acc ++ [SSN one]
           | None => acc
           end) acc ks
  = acc ++ omap (fun k => SSN <$> m !! k) ks.
Proof.
  revert acc. induction ks as [|k ks IH]; intros acc; cbn.
  - now rewrite app_nil_r.
  - rewrite IH. destruct (m !! k); cbn; [now rewrite <- app_assoc | reflexivity].
Qed.

Lemma omap_lookup_pairs (m : gmap string Passenger)
    (l : list (string * Passenger)) :
  (forall kv, kv ∈ l -> m !! kv.1 = Some kv.2) ->
  omap (fun k => SSN <$> m !! k) l.*1 = SSN <$> l.*2.
Proof.
  induction l as [|[k v] l IH]; intros H; cbn; [reflexivity|].
  pose proof (H (k, v) ltac:(left)) as Hk. cbn in Hk. rewrite Hk.
  cbn. f_equal. apply IH.
  intros kv Hkv. apply H. now right.
Qed.

(** The manifest is the SSNs of the stored passengers, in some order. *)
Lemma Manifest_values (order : gmap string Passenger -> list string)
    (m : gmap string Passenger) :
  range_order order -> Manifest order m ≡ₚ SSN <$> (map_to_list m).*2.
Proof.
  intros H. unfold Manifest, Visit. rewrite Visit_manifest_omap. cbn.
  rewrite (H m). rewrite omap_lookup_pairs; [reflexivity|].
  intros [k v] Hkv. now apply elem_of_map_to_list.
Qed.

Lemma keyed_values_keys (m : gmap string Passenger) :
  keyed m -> SSN <$> (map_to_list m).*2 = (map_to_list m).*1.
Proof.
  intros Hk.
  assert (G : forall l : list (string * Passenger),
             (forall kv, kv ∈ l -> m !! kv.1 = Some kv.2) ->
             SSN <$> l.*2 = l.*1).
  { induction l as [|[k v] l IH]; intros H; cbn; [reflexivity|].
    f_equal; [apply (Hk k v), (H (k, v)); left|].
    apply IH. intros kv Hkv. apply H. now right. }
  apply G. intros [k v] Hkv. now apply elem_of_map_to_list.
Qed.

(** X4. On a set whose passengers are stored under their SSN the
    manifest names every passenger once: it is as long as the set is
    large, has no duplicate, and holds exactly the SSNs that Find finds. *)
Theorem Manifest_lists_the_set (order : gmap string Passenger -> list string)
    (m : gmap string Passenger) :
  range_order order -> keyed m ->
  length (Manifest order m) = size m /\
  NoDup (Manifest order m) /\
  forall ssn, ssn ∈ Manifest order m <->
              is_Some (m !! ssn) /\ SSN (Find m ssn) = ssn.
Proof.
  intros H Hk. pose proof (Manifest_values order m H) as P. split.
  - rewrite P, !length_fmap. apply length_map_to_list.
  - rewrite (keyed_values_keys m Hk) in P. split.
    + rewrite P. apply NoDup_fst_map_to_list.
    + intros ssn. rewrite P, list_elem_of_fmap. unfold Find. split.
      * intros [[k v] [-> Hkv]]. apply elem_of_map_to_list in Hkv. cbn.
        rewrite Hkv. split; [eauto | now apply (Hk k v)].
      * intros [[v Hv] _]. exists (ssn, v). split; [reflexivity|].
        now apply elem_of_map_to_list.
Qed.

Lemma Manifest_lists_the_set_witness :
  let m := passengers (bus (snd (Go main_heap Monday key_order expressLine))) in
  length (Manifest key_order m) = size m /\
  NoDup (Manifest key_order m) /\
  forall ssn, ssn ∈ Manifest key_order m <->
              is_Some (m !! ssn) /\ SSN (Find m ssn) = ssn.
Proof.
  apply (Manifest_lists_the_set key_order).
  - intros m. reflexivity.
  - apply (bool_decide_unpack _). vm_compute. reflexivity.
Defined.

(** Without the condition the manifest is still as long as the set. *)
Lemma Manifest_length (order : gmap string Passenger -> list string)
    (m : gmap string Passenger) :
  range_order order -> length (Manifest order m) = size m.
Proof.
  intros H. rewrite (Manifest_values order m H), !length_fmap.
  apply length_map_to_list.
Qed.

(** After a renaming through [UpdatePassengers] the manifest shows an SSN
    that Find does not find. *)
Example Manifest_renamed_not_found :
  Bus_Manifest key_order (bus renamedLine) = ["99887766-55"] /\
  Find (passengers (bus renamedLine)) "99887766-55" = emptyPassenger.
Proof. split; vm_compute; reflexivity. Qed.

Lemma VisitUpdate_loop_lookup (visitor : Passenger -> Passenger)
    (ks : list string) :
  forall m : gmap string Passenger,
    NoDup ks ->
    forall k, VisitUpdate_loop ks visitor m !! k
              = if decide (k ∈ ks) then visitor <$> m !! k else m !! k.
Proof.
  induction ks as [|k0 ks IH]; intros m Hnd k; cbn [VisitUpdate_loop].
  - destruct (decide (k ∈ [])) as [Hin|_]; [inversion Hin | reflexivity].
  - inversion Hnd as [|? ? Hk0 Hnd']; subst.
    destruct (m !! k0) as [pp|] eqn:E; rewrite IH by assumption.
    + destruct (decide (k = k0)) as [->|Hne].
      * rewrite decide_False by assumption. rewrite decide_True by left.
        now rewrite lookup_insert_eq, E.
      * rewrite lookup_insert_ne by congruence.
        destruct (decide (k ∈ ks)) as [Hin|Hin].
        -- rewrite decide_True by now right. reflexivity.
        -- rewrite decide_False; [reflexivity|].
           intros [?|?]%elem_of_cons; contradiction.
    + destruct (decide (k = k0)) as [->|Hne].
      * rewrite decide_False by assumption. rewrite decide_True by left.
        now rewrite E.
      * destruct (decide (k ∈ ks)) as [Hin|Hin].
        -- rewrite decide_True by now right. reflexivity.
        -- rewrite decide_False; [reflexivity|].
           intros [?|?]%elem_of_cons; contradiction.
Qed.

(** X5. Updating in place while ranging ([VisitUpdate]) and rebuilding a
    copy ([UpdatePassengers]) give the same set, whatever the order of the
    range: every passenger is replaced by its visited copy, under the key
    it had. *)
Theorem VisitUpdate_is_UpdatePassengers
    (order : gmap string Passenger -> list string)
    (visitor : Passenger -> Passenger) (s : State) :
  range_order order ->
  VisitUpdate order visitor (passengers (bus s))
  = passengers (bus (snd (UpdatePassengers visitor s))) /\
  forall ssn, VisitUpdate order visitor (passengers (bus s)) !! ssn
              = visitor <$> passengers (bus s) !! ssn.
Proof.
  intros H.
  assert (G : forall ssn, VisitUpdate order visitor (passengers (bus s)) !! ssn
                          = visitor <$> passengers (bus s) !! ssn).
  { intros ssn. unfold VisitUpdate.
    rewrite VisitUpdate_loop_lookup by now apply range_order_NoDup.
    destruct (decide (ssn ∈ order (passengers (bus s)))) as [Hin|Hin];
      [reflexivity|].
    destruct (passengers (bus s) !! ssn) eqn:E; [|reflexivity].
    destruct Hin. apply range_order_elem; eauto. }
  split; [|exact G]. apply map_eq. intros ssn. rewrite G. cbn.
  now rewrite lookup_fmap.
Qed.

Lemma VisitUpdate_is_UpdatePassengers_witness :
  let s := snd (Go main_heap Monday key_order expressLine) in
  VisitUpdate key_order (set_SSN "99887766-55") (passengers (bus s))
  = passengers (bus (snd (UpdatePassengers (set_SSN "99887766-55") s))) /\
  forall ssn,
    VisitUpdate key_order (set_SSN "99887766-55") (passengers (bus s)) !! ssn
    = set_SSN "99887766-55" <$> passengers (bus s) !! ssn.
Proof.
  apply (VisitUpdate_is_UpdatePassengers key_order). intros m. reflexivity.
Defined.

(** X6. [UpdatePassengers] with a visitor that keeps the SSN keeps the
    set stored by SSN; it keeps the keys, hence the number of passengers,
    and the route, the position and the output. *)
Theorem UpdatePassengers_keeps_keys (visitor : Passenger -> Passenger)
    (s : State) :
  (forall p, SSN (visitor p) = SSN p) ->
  keyed_bus (bus s) ->
  keyed_bus (bus (snd (UpdatePassengers visitor s))) /\
  dom (passengers (bus (snd (UpdatePassengers visitor s))))
  = dom (passengers (bus s)) /\
  size (passengers (bus (snd (UpdatePassengers visitor s))))
  = size (passengers (bus s)) /\
  stops (bus (snd (UpdatePassengers visitor s))) = stops (bus s) /\
  currentStop (bus (snd (UpdatePassengers visitor s))) = currentStop (bus s) /\
  out (snd (UpdatePassengers visitor s)) = out s.
Proof.
  intros Hv Hk. cbn. repeat split.
  - intros k p. cbn. rewrite lookup_fmap.
    destruct (passengers (bus s) !! k) as [q|] eqn:E; [|discriminate].
    intros [= <-]. rewrite Hv. now apply (Hk k q).
  - apply dom_fmap_L.
  - apply map_size_fmap.
Qed.

Lemma UpdatePassengers_keeps_keys_witness :
  let s := snd (Go main_heap Monday key_order expressLine) in
  let s' := snd (UpdatePassengers (set_HasValidTicket false) s) in
  keyed_bus (bus s') /\
  dom (passengers (bus s')) = dom (passengers (bus s)) /\
  size (passengers (bus s')) = size (passengers (bus s)) /\
  stops (bus s') = stops (bus s) /\
  currentStop (bus s') = currentStop (bus s) /\
  out s' = out s.
Proof.
  apply (UpdatePassengers_keeps_keys (set_HasValidTicket false)).
  - intros p. reflexivity.
  - apply (bool_decide_unpack _). vm_compute. reflexivity.
Defined.

(** Two updates in a row are the update by the composed visitor. *)
Lemma UpdatePassengers_compose (f g : Passenger -> Passenger) (s : State) :
  (UpdatePassengers f ;;; UpdatePassengers g) s
  = UpdatePassengers (fun p => g (f p)) s.
Proof.
  unfold UpdatePassengers, bind, modify_bus. cbn. unfold set_passengers. cbn.
  now rewrite <- map_fmap_compose.
Qed.

(** ** Board and Remove on the passenger set *)

(** Board with a calculator that leaves the state alone: the bus it
    returns on. *)
Lemma Board_returns_bus (p : Passenger) (chargeFn : PriceCalculator)
    (s s' : State) (r : bool) :
  snd (chargeFn p s) = s ->
  Board p chargeFn s = (Ret r, s') ->
  bus s' = set_passengers
             (<[SSN p := set_HasValidTicket true p]> (passengers (bus s)))
             (bus s).
Proof.
  intros Hpure. destruct (HasValidTicket p) eqn:Ht.
  - rewrite Board_ticketed by assumption. intros [= _ <-]. cbn.
    now rewrite ticketed_fixed.
  - destruct (chargeFn p s) as [[amount|v] s1] eqn:Hc; cbn in Hpure; subst s1.
    + rewrite (Board_charged _ _ _ _ _ Ht Hc). now intros [= _ <-].
    + rewrite (Board_charge_panics _ _ _ _ _ Ht Hc). discriminate.
Qed.

(** X7. Board writes one entry, the one under the passenger's SSN: a
    passenger already stored under that SSN is replaced and the number of
    passengers stays, otherwise it grows by one; every other entry, the
    route and the position are as before. *)
Theorem Board_replaces_or_adds (p : Passenger) (chargeFn : PriceCalculator)
    (s s' : State) (r : bool) :
  snd (chargeFn p s) = s ->
  Board p chargeFn s = (Ret r, s') ->
  (forall k, k <> SSN p ->
             passengers (bus s') !! k = passengers (bus s) !! k) /\
  size (passengers (bus s'))
  = match passengers (bus s) !! SSN p with
    | Some _ => size (passengers (bus s))
    | None => S (size (passengers (bus s)))
    end /\
  stops (bus s') = stops (bus s) /\
  currentStop (bus s') = currentStop (bus s).
Proof.
  intros Hpure H. rewrite (Board_returns_bus _ _ _ _ _ Hpure H). cbn.
  repeat split.
  - intros k Hk. now rewrite lookup_insert_ne.
  - rewrite map_size_insert. now destruct (passengers (bus s) !! SSN p).
Qed.

Lemma Board_replaces_or_adds_witness :
  let s := snd (Go main_heap Monday key_order expressLine) in
  let s' := snd (Board (ToPassenger john) WorkdayPricing s) in
  (forall k, k <> "12345612-22" ->
             passengers (bus s') !! k = passengers (bus s) !! k) /\
  size (passengers (bus s'))
  = match passengers (bus s) !! "12345612-22" with
    | Some _ => size (passengers (bus s))
    | None => S (size (passengers (bus s)))
    end /\
  stops (bus s') = stops (bus s) /\
  currentStop (bus s') = currentStop (bus s).
Proof.
  apply (Board_replaces_or_adds (ToPassenger john) WorkdayPricing
           (snd (Go main_heap Monday key_order expressLine)) _ true).
  - vm_compute. reflexivity.
  - vm_compute. reflexivity.
Defined.

(** X8. Board does not look at the set to see who has paid: boarding the
    same passenger, held without a ticket by the caller, twice charges the
    price twice, and the set holds the passenger once. *)
Theorem Board_twice_charges_twice (p : Passenger) (chargeFn : PriceCalculator)
    (amount : float) (s : State) :
  HasValidTicket p = false ->
  (forall s0, chargeFn p s0 = (Ret amount, s0)) ->
  (Board p chargeFn ;;; Board p chargeFn) s
  = (Ret true,
     mkState (set_passengers
                (<[SSN p := set_HasValidTicket true p]> (passengers (bus s)))
                (bus s))
             (out s ++ [Charged (SSN p) amount; Boarded (name (bus s)) (SSN p);
                        Charged (SSN p) amount; Boarded (name (bus s)) (SSN p)])).
Proof.
  intros Ht Hc. unfold bind at 1.
  rewrite (Board_charged _ _ _ _ _ Ht (Hc s)).
  rewrite (Board_charged _ _ _ _ _ Ht (Hc _)). cbn.
  unfold set_passengers. cbn. rewrite insert_insert_eq.
  now rewrite <- !app_assoc.
Qed.

Lemma Board_twice_charges_twice_witness :
  (Board (ToPassenger john) WorkdayPricing ;;;
   Board (ToPassenger john) WorkdayPricing) expressLine
  = (Ret true,
     mkState (set_passengers
                (<["12345612-22" := set_HasValidTicket true (ToPassenger john)]>
                   (passengers (bus expressLine)))
                (bus expressLine))
             (out expressLine
              ++ [Charged "12345612-22" 6.0%float;
                  Boarded "Express Line" "12345612-22";
                  Charged "12345612-22" 6.0%float;
                  Boarded "Express Line" "12345612-22"])).
Proof.
  apply (Board_twice_charges_twice (ToPassenger john) WorkdayPricing 6.0%float
           expressLine).
  - reflexivity.
  - intros s0. reflexivity.
Defined.

(** X9. Removing a passenger right after boarding it gives back the set
    there was before, when nobody was stored under its SSN. *)
Theorem Board_then_Remove (p : Passenger) (chargeFn : PriceCalculator)
    (s s' : State) :
  snd (chargeFn p s) = s ->
  passengers (bus s) !! SSN p = None ->
  (Board p chargeFn ;;; Remove p) s = (Ret tt, s') ->
  bus s' = bus s.
Proof.
  intros Hpure Hnone H.
  apply bind_inv in H as [(r & s1 & HB & HR)|(v & _ & ?)]; [|discriminate].
  rewrite Remove_spec in HR. injection HR as <-.
  rewrite (Board_returns_bus _ _ _ _ _ Hpure HB). cbn.
  unfold set_passengers. cbn. rewrite delete_insert_eq, delete_id by assumption.
  now destruct (bus s).
Qed.

Lemma Board_then_Remove_witness :
  bus (snd ((Board (ToPassenger john) WorkdayPricing ;;;
             Remove (ToPassenger john)) expressLine))
  = bus expressLine.
Proof.
  apply (Board_then_Remove (ToPassenger john) WorkdayPricing expressLine).
  - vm_compute. reflexivity.
  - vm_compute. reflexivity.
  - vm_compute. reflexivity.
Defined.

(** ** StopsAt and NotifyBoardingIntent *)

Section Route.

Variable heap : Heap.

(** StopsAt answers false only after it compared the stop with every
    stop of the route and found another name each time. *)
Lemma StopsAt_loop_false (l : list ptr) (d : ptr) :
  StopsAt_loop heap l d = Ret false ->
  Forall (fun stop => exists l0 l', stop = Some l0 /\ d = Some l' /\
                        Name (heap l0) <> Name (heap l')) l.
Proof.
  induction l as [|stop l IH]; cbn; [constructor|].
  destruct stop as [l0|], d as [l'|]; cbn; try discriminate.
  destruct (String.eqb_spec (Name (heap l0)) (Name (heap l'))) as [|Hne];
    [discriminate|].
  intros H. constructor; [eauto | now apply IH].
Qed.

Lemma StopsAt_loop_app_false (l l2 : list ptr) (d : ptr) :
  StopsAt_loop heap l d = Ret false ->
  StopsAt_loop heap (l ++ l2) d = StopsAt_loop heap l2 d.
Proof.
  induction l as [|stop l IH]; cbn; [reflexivity|].
  destruct (Equals heap stop d) as [[]|v]; cbn; try discriminate. exact IH.
Qed.

Lemma StopsAt_false_not_route_has (b : Bus) (d : ptr) :
  StopsAt heap b d = Ret false -> ~ route_has heap b d.
Proof.
  intros H (l & l' & Hin & -> & E). apply StopsAt_loop_false in H.
  rewrite Forall_forall in H.
  destruct (H _ Hin) as (l0 & l2 & [= <-] & [= <-] & Hne). contradiction.
Qed.

Lemma StopsAt_total (b : Bus) (l' : loc) :
  None ∉ stops b -> exists r, StopsAt heap b (Some l') = Ret r.
Proof.
  unfold StopsAt. induction (stops b) as [|stop l IH]; intros Hnil; cbn; [eauto|].
  apply not_elem_of_cons in Hnil as [Hstop Hrest].
  destruct stop as [l0|]; [|congruence]. cbn.
  destruct (String.eqb (Name (heap l0)) (Name (heap l'))); eauto.
Qed.

(** X10. On a route without a [nil] stop, StopsAt of a stop returns, and
    it returns true exactly when a stop of the route has that stop's
    name: two stops are the same when their names are. *)
Theorem StopsAt_decides_route (b : Bus) (l' : loc) :
  None ∉ stops b ->
  exists r, StopsAt heap b (Some l') = Ret r /\
            (r = true <-> route_has heap b (Some l')).
Proof.
  intros Hnil. destruct (StopsAt_total b l' Hnil) as [r Hr]. exists r.
  split; [assumption|]. destruct r.
  - split; [intros _; now apply StopsAt_true_route_has | reflexivity].
  - split; [discriminate|]. intros H.
    now apply StopsAt_false_not_route_has in Hr.
Qed.

(** StopsAt of a [nil] stop panics on every bus that has a stop; on
    a bus without stops it returns false. *)
Lemma StopsAt_nil (b : Bus) :
  StopsAt heap b nil
  = match stops b with
    | [] => Ret false
    | _ :: _ => Panic NilDereference
    end.
Proof.
  unfold StopsAt. destruct (stops b) as [|[l0|] l]; reflexivity.
Qed.

Lemma NotifyBoardingIntent_cases (busStop : ptr) (s s1 : State)
    (r : result unit) :
  NotifyBoardingIntent heap busStop s = (r, s1) ->
  (s1 = s /\ StopsAt heap (bus s) busStop <> Ret false) \/
  (StopsAt heap (bus s) busStop = Ret false /\ r = Ret tt /\
   s1 = mkState (set_stops (stops (bus s) ++ [busStop]) (bus s)) (out s)).
Proof.
  unfold NotifyBoardingIntent. unfold bind at 1, get_bus. unfold bind at 1, lift.
  destruct (StopsAt heap (bus s) busStop) as [[]|v].
  - intros [= _ <-]. left. split; [reflexivity | discriminate].
  - intros [= <- <-]. right. auto.
  - intros [= _ <-]. left. split; [reflexivity | discriminate].
Qed.

(** X11. Once NotifyBoardingIntent returned for a stop, the bus stops
    there, and asking again changes nothing.  The route is as before or
    has that stop appended; passengers, position and output are as
    before. *)
Theorem NotifyBoardingIntent_idempotent (l : loc) (s s1 : State) :
  NotifyBoardingIntent heap (Some l) s = (Ret tt, s1) ->
  StopsAt heap (bus s1) (Some l) = Ret true /\
  NotifyBoardingIntent heap (Some l) s1 = (Ret tt, s1) /\
  (stops (bus s1) = stops (bus s) \/
   stops (bus s1) = stops (bus s) ++ [Some l]) /\
  passengers (bus s1) = passengers (bus s) /\
  currentStop (bus s1) = currentStop (bus s) /\
  out s1 = out s.
Proof.
  intros H.
  assert (Hst : StopsAt heap (bus s1) (Some l) = Ret true).
  { pose proof H as H'.
    apply NotifyBoardingIntent_cases in H' as [[-> Hne]|(Hf & _ & ->)].
    - unfold NotifyBoardingIntent in H. unfold bind at 1, get_bus in H.
      unfold bind at 1, lift in H.
      destruct (StopsAt heap (bus s) (Some l)) as [[]|v];
        [reflexivity | congruence | discriminate].
    - unfold StopsAt in *. cbn. rewrite (StopsAt_loop_app_false _ _ _ Hf).
      cbn. now rewrite String.eqb_refl. }
  split; [assumption|]. split.
  - unfold NotifyBoardingIntent. unfold bind at 1, get_bus.
    unfold bind at 1, lift. now rewrite Hst.
  - apply NotifyBoardingIntent_cases in H as [[-> _]|(_ & _ & ->)]; cbn; auto.
Qed.

Lemma route_names_app (b : Bus) (l2 : list ptr) :
  route_names heap (set_stops (stops b ++ l2) b)
  = route_names heap b
    ++ omap (fun stop : ptr => (fun l => Name (heap l)) <$> stop) l2.
Proof. unfold route_names. cbn. apply omap_app. Qed.

(** X12. NotifyBoardingIntent never puts a second stop of a name on the
    route: a route without [nil] stop and without two stops of one name
    stays so, however the call ends. *)
Theorem NotifyBoardingIntent_keeps_distinct (l : loc) (s s1 : State)
    (r : result unit) :
  distinct_stops heap (bus s) ->
  NotifyBoardingIntent heap (Some l) s = (r, s1) ->
  distinct_stops heap (bus s1).
Proof.
  intros [Hnil Hnd] H.
  apply NotifyBoardingIntent_cases in H as [[-> _]|(Hf & _ & ->)];
    [now split|].
  split.
  - cbn. intros [Hin|Hin]%elem_of_app; [contradiction|].
    apply list_elem_of_singleton in Hin. discriminate.
  - cbn [bus]. rewrite route_names_app. cbn. apply NoDup_app. repeat split.
    + assumption.
    + intros n Hn [->|Hin]%elem_of_cons; [|inversion Hin].
      unfold route_names in Hn. apply list_elem_of_omap in Hn as (stop & Hin & Hs).
      apply StopsAt_loop_false in Hf. rewrite Forall_forall in Hf.
      destruct (Hf _ Hin) as (l0 & l2 & -> & [= <-] & Hne).
      cbn in Hs. injection Hs as Hs. congruence.
    + apply NoDup_singleton.
Qed.

End Route.

Lemma StopsAt_decides_route_witness :
  exists r, StopsAt main_heap (bus expressLine) (Some TheVillage) = Ret r /\
            (r = true <-> route_has main_heap (bus expressLine) (Some TheVillage)).
Proof.
  apply (StopsAt_decides_route main_heap (bus expressLine) TheVillage).
  vm_compute. intros H. repeat (apply elem_of_cons in H as [H|H]; [discriminate|]).
  inversion H.
Defined.

Lemma NotifyBoardingIntent_idempotent_witness :
  let s1 := snd (NotifyBoardingIntent main_heap (Some Downtown) shortLine) in
  StopsAt main_heap (bus s1) (Some Downtown) = Ret true /\
  NotifyBoardingIntent main_heap (Some Downtown) s1 = (Ret tt, s1) /\
  (stops (bus s1) = stops (bus shortLine) \/
   stops (bus s1) = stops (bus shortLine) ++ [Some Downtown]) /\
  passengers (bus s1) = passengers (bus shortLine) /\
  currentStop (bus s1) = currentStop (bus shortLine) /\
  out s1 = out shortLine.
Proof.
  apply (NotifyBoardingIntent_idempotent main_heap Downtown shortLine).
  vm_compute. reflexivity.
Defined.

Lemma NotifyBoardingIntent_keeps_distinct_witness :
  distinct_stops main_heap
    (bus (snd (NotifyBoardingIntent main_heap (Some TheVillage) shortLine))).
Proof.
  apply (NotifyBoardingIntent_keeps_distinct main_heap TheVillage shortLine _
           (fst (NotifyBoardingIntent main_heap (Some TheVillage) shortLine))).
  - split.
    + vm_compute. intros H. apply elem_of_cons in H as [H|H]; [discriminate|].
      inversion H.
    + vm_compute. apply NoDup_singleton.
  - vm_compute. reflexivity.
Defined.

(** ** The arrival protocol: who leaves and who boards *)

Section ArrivalExact.

Variable heap : Heap.
Variable today : Weekday.
Variable order : gmap string Passenger -> list string.

Lemma at_destination_route (b b' : Bus) (p : Passenger) :
  stops b' = stops b -> currentStop b' = currentStop b ->
  at_destination heap b' p = at_destination heap b p.
Proof. intros E1 E2. unfold at_destination, CurrentStop. now rewrite E1, E2. Qed.

(** A returning turn of the alighting loop: the answer of the test
    decides. *)
Lemma alight_Ret_cases (p : Passenger) (s s2 : State) :
  alight heap p s = (Ret tt, s2) ->
  (at_destination heap (bus s) p = Ret true /\ s2 = snd (Remove p s)) \/
  (at_destination heap (bus s) p = Ret false /\ s2 = s).
Proof.
  unfold alight, at_destination. unfold bind at 1, get_bus.
  unfold bind at 1, lift.
  destruct (CurrentStop (bus s)) as [cur|v]; [|discriminate]. cbn [rbind].
  unfold bind at 1. destruct (Equals heap cur (Destination p)) as [[]|v].
  - intros H. left. split; [reflexivity | now rewrite H].
  - intros [= <-]. now right.
  - discriminate.
Qed.

Lemma alight_range_exact (ks : list string) :
  forall s s1 : State,
    keyed_bus (bus s) -> NoDup ks ->
    range_passengers ks (alight heap) s = (Ret tt, s1) ->
    forall k p,
      passengers (bus s1) !! k = Some p <->
      passengers (bus s) !! k = Some p /\
      (k ∈ ks -> at_destination heap (bus s) p = Ret false).
Proof.
  induction ks as [|k0 ks IH]; intros s s1 Hkey Hnd; cbn [range_passengers].
  - intros [= <-] k p. split; [intros H; split; [assumption|]|tauto].
    intros Hin. inversion Hin.
  - inversion Hnd as [|? ? Hk0 Hnd']; subst.
    unfold bind at 1, get_bus.
    destruct (passengers (bus s) !! k0) as [q|] eqn:E.
    + intros H.
      apply bind_inv in H as [([] & s2 & Ha & H)|(v & _ & ?)]; [|discriminate].
      assert (Hroute : stops (bus s2) = stops (bus s) /\
                       currentStop (bus s2) = currentStop (bus s)).
      { pose proof (keeps_route_alight heap q _ _ _ Ha). tauto. }
      assert (Hkey2 : keyed_bus (bus s2))
        by exact (preserves_keyed_alight heap q _ _ _ Hkey Ha).
      intros k p. rewrite (IH s2 s1 Hkey2 Hnd' H k p).
      assert (Hat : forall p0, at_destination heap (bus s2) p0
                               = at_destination heap (bus s) p0).
      { intros p0. now apply at_destination_route. }
      rewrite Hat. pose proof (Hkey k0 q E) as Hq.
      apply alight_Ret_cases in Ha as [[Htrue ->]|[Hfalse ->]].
      * cbn. rewrite Hq, lookup_delete_Some. split.
        -- intros [[Hne Hk] Hks]. split; [assumption|].
           intros [?|?]%elem_of_cons; [congruence | auto].
        -- intros [Hk Hks]. destruct (decide (k = k0)) as [->|Hne].
           ++ assert (p = q) as -> by congruence.
              rewrite Hks in Htrue by left. discriminate.
           ++ repeat split; [congruence | assumption|].
              intros Hin. apply Hks. now right.
      * split.
        -- intros [Hk Hks]. split; [assumption|].
           intros [->|?]%elem_of_cons; [|auto].
           assert (p = q) as -> by congruence. assumption.
        -- intros [Hk Hks]. split; [assumption|].
           intros Hin. apply Hks. now right.
    + intros H k p. rewrite (IH s s1 Hkey Hnd' H k p). split.
      * intros [Hk Hks]. split; [assumption|].
        intros [->|?]%elem_of_cons; [congruence | auto].
      * intros [Hk Hks]. split; [assumption|].
        intros Hin. apply Hks. now right.
Qed.

(** X13. In a returning alighting loop on a set stored by SSN, exactly the
    passengers whose destination has the name of the current stop leave:
    who stays was on the bus and is not at its destination. *)
Theorem alighting_is_exact (s s1 : State) :
  range_order order -> keyed_bus (bus s) ->
  VisitPassengers order (alight heap) s = (Ret tt, s1) ->
  forall k p,
    passengers (bus s1) !! k = Some p <->
    passengers (bus s) !! k = Some p /\
    at_destination heap (bus s) p = Ret false.
Proof.
  intros Hord Hkey H k p. unfold VisitPassengers in H.
  unfold bind at 1, get_bus in H.
  rewrite (alight_range_exact _ s s1 Hkey (range_order_NoDup _ _ Hord) H k p).
  split; intros [Hk Hks]; (split; [assumption|]).
  - apply Hks. apply range_order_elem; eauto.
  - intros _. assumption.
Qed.




(** A returning turn of the boarding loop: StopsAt decided. *)
Lemma board_prospect_Ret_cases (w : Prospect) (s s1 : State) :
  board_prospect heap today w s = (Ret tt, s1) ->
  (StopsAt heap (bus s) (Prospect_Destination w) = Ret false /\ s1 = s) \/
  (StopsAt heap (bus s) (Prospect_Destination w) = Ret true /\
   passengers (bus s1)
   = <[Prospect_SSN w := set_HasValidTicket true (ToPassenger w)]>
       (passengers (bus s)) /\
   stops (bus s1) = stops (bus s)).
Proof.
  intros H. unfold board_prospect in H.
  unfold bind at 1, get_bus in H. unfold bind at 1, lift in H.
  destruct (StopsAt heap (bus s) (Prospect_Destination w)) as [[]|v] eqn:E.
  - right. split; [reflexivity|].
    apply bind_inv in H as [(r & s2 & HB & Hr)|(v & _ & ?)]; [|discriminate].
    injection Hr as <-.
    assert (Hpure : snd (GetPricing (Company (bus s)) today (ToPassenger w) s)
                    = s).
    { destruct (GetPricing_pure today (Company (bus s)) (ToPassenger w) s)
        as [r' Hp]. now rewrite Hp. }
    rewrite (Board_returns_bus _ _ _ _ _ Hpure HB). cbn. auto.
  - left. injection H as <-. auto.
  - discriminate.
Qed.

Lemma board_loop_keeps_keys (l : list Prospect) :
  forall (s s1 : State) (r : result unit),
    for_each l (board_prospect heap today) s = (r, s1) ->
    forall k, is_Some (passengers (bus s) !! k) ->
              is_Some (passengers (bus s1) !! k).
Proof.
  induction l as [|w l IH]; intros s s1 r; cbn [for_each].
  - now intros [= _ <-].
  - intros H k Hk.
    apply bind_inv in H as [([] & s2 & Hb & H)|(v & Hb & _)].
    + eapply IH; [exact H|].
      apply board_prospect_cases in Hb as [->|(_ & amount & ->)]; [assumption|].
      cbn. rewrite lookup_insert. case_decide; eauto.
    + apply board_prospect_cases in Hb as [->|(_ & amount & ->)]; [assumption|].
      cbn. rewrite lookup_insert. case_decide; eauto.
Qed.

Lemma board_loop_boards_all (l : list Prospect) :
  forall s s1 : State,
    for_each l (board_prospect heap today) s = (Ret tt, s1) ->
    forall w, w ∈ l -> route_has heap (bus s) (Prospect_Destination w) ->
      exists w', w' ∈ l /\ Prospect_SSN w' = Prospect_SSN w /\
                 passengers (bus s1) !! Prospect_SSN w
                 = Some (set_HasValidTicket true (ToPassenger w')).
Proof.
  induction l as [|w0 l IH]; intros s s1; cbn [for_each];
    [intros _ w Hin; inversion Hin|].
  intros H w Hin Hroute.
  apply bind_inv in H as [([] & s2 & Hb & H)|(v & _ & ?)]; [|discriminate].
  apply board_prospect_Ret_cases in Hb as [[Hf ->]|(Ht & Hm & Hs)].
  - apply elem_of_cons in Hin as [->|Hin].
    + now apply StopsAt_false_not_route_has in Hf.
    + destruct (IH _ _ H w Hin Hroute) as (w' & ? & ?).
      exists w'. split; [now right | assumption].
  - apply elem_of_cons in Hin as [->|Hl].
    2:{ destruct (IH _ _ H w Hl (route_has_stops heap _ _ _ Hs Hroute))
          as (w' & ? & ?).
        exists w'. split; [now right | assumption]. }
    + assert (Hin2 : is_Some (passengers (bus s2) !! Prospect_SSN w0))
        by (rewrite Hm, lookup_insert_eq; eauto).
      destruct (board_loop_keeps_keys _ _ _ _ H _ Hin2) as [p Hp].
      destruct (board_loop heap today l _ _ _ H) as (_ & _ & Hchar & _).
      destruct (Hchar _ _ Hp) as [Hold|(w' & Hw' & _ & Hssn & ->)].
      * rewrite Hm, lookup_insert_eq in Hold. injection Hold as <-.
        exists w0. split; [left | auto].
      * exists w'. split; [now right | auto].
Qed.

(** A returning arrival leaves no prospect of the route behind. *)
Lemma arrival_boards_all (l : loc) (s s1 : State) :
  NotifyBusArrival heap today order (Some l) s = (Ret tt, s1) ->
  forall w, w ∈ prospects (heap l) ->
    route_has heap (bus s) (Prospect_Destination w) ->
    exists w', w' ∈ prospects (heap l) /\
               Prospect_SSN w' = Prospect_SSN w /\
               passengers (bus s1) !! Prospect_SSN w
               = Some (set_HasValidTicket true (ToPassenger w')).
Proof.
  unfold NotifyBusArrival. intros H w Hin Hroute.
  apply bind_inv in H as [([] & s2 & Ha & H)|(v & _ & ?)]; [|discriminate].
  unfold bind at 1, lift in H. cbn [deref] in H.
  assert (Hs : stops (bus s2) = stops (bus s)).
  { pose proof (keeps_route_VisitPassengers order (alight heap)
                  (keeps_route_alight heap) _ _ _ Ha). tauto. }
  apply (board_loop_boards_all _ _ _ H w Hin).
  now apply (route_has_stops heap (bus s)).
Qed.

(** X15. When the arrival protocol of a stop returns, every prospect
    waiting there whose destination has the name of a stop of the route
    is on the bus with a valid ticket, under its SSN; the record is that
    of the last such prospect with that SSN. *)
Theorem NotifyBusArrival_boards_all (l : loc) (s s1 : State) :
  NotifyBusArrival heap today order (Some l) s = (Ret tt, s1) ->
  forall w, w ∈ prospects (heap l) ->
    route_has heap (bus s) (Prospect_Destination w) ->
    exists w', w' ∈ prospects (heap l) /\
               Prospect_SSN w' = Prospect_SSN w /\
               passengers (bus s1) !! Prospect_SSN w
               = Some (set_HasValidTicket true (ToPassenger w')).
Proof. apply arrival_boards_all. Qed.

End ArrivalExact.

Lemma alighting_is_exact_witness :
  let s1 := snd (VisitPassengers key_order (alight main_heap) atUniversity) in
  passengers (bus s1) !! "12345612-22" = None /\
  forall k p,
    passengers (bus s1) !! k = Some p <->
    passengers (bus atUniversity) !! k = Some p /\
    at_destination main_heap (bus atUniversity) p = Ret false.
Proof.
  split; [vm_compute; reflexivity|].
  apply (alighting_is_exact main_heap key_order atUniversity).
  - intros m. reflexivity.
  - apply (bool_decide_unpack _). vm_compute. reflexivity.
  - vm_compute. reflexivity.
Defined.


Lemma NotifyBusArrival_boards_all_witness :
  let s1 := snd (NotifyBusArrival main_heap Monday key_order (Some Downtown)
                   expressLine) in
  exists w', w' ∈ prospects (main_heap Downtown) /\
             Prospect_SSN w' = Prospect_SSN john /\
             passengers (bus s1) !! Prospect_SSN john
             = Some (set_HasValidTicket true (ToPassenger w')).
Proof.
  apply (NotifyBusArrival_boards_all main_heap Monday key_order Downtown
           expressLine _ ltac:(vm_compute; reflexivity) john).
  - vm_compute. left.
  - exists TheUniversity, TheUniversity. split; [|split; reflexivity].
    vm_compute. right. left.
Defined.

(** ** NotifyProspectArrival, then the bus arrives *)

(** NotifyProspectArrival appends the prospect to the waiting list of its
    stop and changes nothing else; no stop changes its name. *)
Lemma NotifyProspectArrival_appends (h : Heap) (l : loc) (w : Prospect) :
  let h' := snd (NotifyProspectArrival h (Some l) w) in
  prospects (h' l) = prospects (h l) ++ [w] /\
  busses (h' l) = busses (h l) /\
  (forall l', Name (h' l') = Name (h l')) /\
  (forall l', l' <> l -> h' l' = h l').
Proof.
  cbn. rewrite Pos.eqb_refl. cbn. repeat split.
  - intros l'. destruct (Pos.eqb_spec l' l) as [->|]; reflexivity.
  - intros l' Hne. destruct (Pos.eqb_spec l' l); [contradiction | reflexivity].
Qed.

Lemma route_has_names (h h' : Heap) (b : Bus) (d : ptr) :
  (forall l, Name (h' l) = Name (h l)) ->
  route_has h b d -> route_has h' b d.
Proof.
  intros Hn (l & l' & Hin & Hd & E). exists l, l'. now rewrite !Hn.
Qed.

(** X16. A prospect who arrived at a stop is on the bus, with a valid
    ticket and under its SSN, after any returning arrival of a bus at that
    stop whose route has a stop of the prospect's destination's name.  The
    stop knows no bus (nothing in the package fills its list), and then
    NotifyProspectArrival itself returns. *)
Theorem registered_prospect_boards (h : Heap) (today : Weekday)
    (order : gmap string Passenger -> list string) (l : loc) (w : Prospect)
    (s s1 : State) :
  busses (h l) = [] ->
  route_has h (bus s) (Prospect_Destination w) ->
  NotifyBusArrival (snd (NotifyProspectArrival h (Some l) w)) today order
    (Some l) s = (Ret tt, s1) ->
  fst (NotifyProspectArrival h (Some l) w) = Ret tt /\
  exists p, passengers (bus s1) !! Prospect_SSN w = Some p /\
            HasValidTicket p = true /\ SSN p = Prospect_SSN w.
Proof.
  intros Hb Hroute H. split; [cbn; now rewrite Hb|].
  destruct (NotifyProspectArrival_appends h l w) as (Hp & _ & Hn & _).
  destruct (arrival_boards_all _ _ _ _ _ _ H w) as (w' & _ & Hssn & Hw').
  - rewrite Hp. apply elem_of_app. right. left.
  - now apply (route_has_names h).
  - eexists. split; [exact Hw'|]. split; [reflexivity | exact Hssn].
Qed.

Lemma registered_prospect_boards_witness :
  let h := snd (NotifyProspectArrival stops_heap (Some Downtown) john) in
  let s1 := snd (NotifyBusArrival h Monday key_order (Some Downtown)
                   expressLine) in
  fst (NotifyProspectArrival stops_heap (Some Downtown) john) = Ret tt /\
  exists p, passengers (bus s1) !! Prospect_SSN john = Some p /\
            HasValidTicket p = true /\ SSN p = Prospect_SSN john.
Proof.
  apply (registered_prospect_boards stops_heap Monday key_order Downtown john
           expressLine).
  - reflexivity.
  - exists TheUniversity, TheUniversity. split; [|split; reflexivity].
    vm_compute. right. left.
  - vm_compute. reflexivity.
Defined.

(** ** Go: what it reports, and the driver's loop *)

Section GoReports.

Variable heap : Heap.
Variable today : Weekday.
Variable order : gmap string Passenger -> list string.

(** The value Go returns is the comparison of the new position with the
    last index. *)
Lemma Go_result_value (s s1 : State) (more : bool) :
  Go heap today order s = (Ret more, s1) ->
  more = (currentStop (bus s1)
          <? wrap16 (Z.of_nat (length (stops (bus s))) - 1)).
Proof.
  intros H. destruct (Go_position _ _ _ _ _ _ H) as (_ & Hc & _).
  destruct (decide (wrap16 (currentStop (bus s) + 1)
                    = wrap16 (Z.of_nat (length (stops (bus s))) - 1))) as [E|E].
  - rewrite Hc, E, Z.ltb_irrefl. rewrite (Go_terminal _ _ _ _ E) in H.
    apply bind_inv in H as [(_ & s2 & _ & H)|(v & _ & ?)]; [|discriminate].
    apply bind_inv in H as [(_ & s3 & _ & H)|(v & _ & ?)]; [|discriminate].
    now injection H as <-.
  - rewrite (Go_en_route _ _ _ _ E) in H.
    apply bind_inv in H as [(_ & s2 & _ & H)|(v & _ & ?)]; [|discriminate].
    apply bind_inv in H as [(curr & s3 & _ & H)|(v & _ & ?)]; [|discriminate].
    apply bind_inv in H as [(s0 & s4 & _ & H)|(v & _ & ?)]; [|discriminate].
    apply bind_inv in H as [(_ & s5 & _ & H)|(v & _ & ?)]; [|discriminate].
    apply bind_inv in H as [(_ & s6 & _ & H)|(v & _ & ?)]; [|discriminate].
    unfold bind, get_bus, ret in H. now injection H as <- <-.
Qed.

(** X17. On a route of at most 32768 stops, from a position that is -1 or
    on the route, a returning Go reports true exactly when stops remain
    after the one it reached, and false exactly at the last stop; and
    CurrentStop then returns the stop reached. *)
Theorem Go_reports_remaining_stops (s s1 : State) (more : bool) :
  on_route (bus s) -> Z.of_nat (length (stops (bus s))) <= 32768 ->
  Go heap today order s = (Ret more, s1) ->
  (more = true <->
   currentStop (bus s1) < Z.of_nat (length (stops (bus s1))) - 1) /\
  (more = false <->
   currentStop (bus s1) = Z.of_nat (length (stops (bus s1))) - 1) /\
  exists stop, CurrentStop (bus s1) = Ret stop /\
               stops (bus s) !! Z.to_nat (currentStop (bus s) + 1) = Some stop.
Proof.
  intros Hon Hlen H.
  pose proof (Go_result_value _ _ _ H) as Hv.
  destruct (Go_step _ _ _ _ _ _ Hon Hlen H) as (Hs & Hc & Hon1).
  unfold on_route in Hon, Hon1. rewrite Hs in *.
  rewrite wrap16_small in Hv by lia. split; [|split].
  - rewrite Hv. apply Z.ltb_lt.
  - rewrite Hv. rewrite Z.ltb_ge. lia.
  - unfold CurrentStop. rewrite Hs, Hc.
    destruct (index_in_range (stops (bus s)) (currentStop (bus s) + 1)
                ltac:(lia)) as (stop & Hi & Hl).
    eauto.
Qed.

(** The second property a bus keeps: Board gives every passenger it adds a
    valid ticket, so the arrival protocol and Go keep every passenger
    ticketed. *)
Lemma preserves_ticketed_alight (p : Passenger) :
  preserves all_ticketed (alight heap p).
Proof.
  intros s r s' H E. apply alight_cases in E as [->| ->]; [assumption|].
  now apply map_Forall_delete.
Qed.

Lemma preserves_ticketed_Remove (p : Passenger) :
  preserves all_ticketed (Remove p).
Proof.
  intros s r s' H. rewrite Remove_spec. intros [= _ <-].
  now apply map_Forall_delete.
Qed.

Lemma preserves_ticketed_board_prospect (w : Prospect) :
  preserves all_ticketed (board_prospect heap today w).
Proof.
  intros s r s' H E.
  apply board_prospect_cases in E as [->|(_ & amount & ->)]; [assumption|].
  now apply map_Forall_insert_2.
Qed.

(** What it takes for a property of the bus to be kept by the arrival
    protocol and by Go. *)
Lemma preserves_NotifyBusArrival (I : Bus -> Prop) (b : ptr) :
  (forall p, preserves I (alight heap p)) ->
  (forall w, preserves I (board_prospect heap today w)) ->
  preserves I (NotifyBusArrival heap today order b).
Proof.
  intros Ha Hb. unfold NotifyBusArrival, VisitPassengers.
  apply preserves_bind; [|intros _].
  - apply preserves_bind; [apply preserves_get_bus|]. intros b0.
    now apply preserves_range_passengers.
  - apply preserves_bind; [apply preserves_lift|]. intros s.
    now apply preserves_for_each.
Qed.

Lemma preserves_Go (I : Bus -> Prop) :
  (forall b i, I b -> I (set_currentStop i b)) ->
  (forall p, preserves I (Remove p)) ->
  (forall p, preserves I (alight heap p)) ->
  (forall w, preserves I (board_prospect heap today w)) ->
  preserves I (Go heap today order).
Proof.
  intros Hpos Hr Ha Hb s r s' H.
  destruct (decide (wrap16 (currentStop (bus s) + 1)
                    = wrap16 (Z.of_nat (length (stops (bus s))) - 1))) as [E|E].
  - rewrite (Go_terminal _ _ _ _ E).
    match goal with |- ?m _ = _ -> _ =>
      assert (K : preserves I m);
        [|intros E'; eapply K; [|exact E']; now apply Hpos]
    end.
    apply preserves_bind; [apply preserves_emit|intros _].
    apply preserves_bind; [|intros _; apply preserves_ret].
    unfold VisitPassengers.
    apply preserves_bind; [apply preserves_get_bus|]. intros b0.
    now apply preserves_range_passengers.
  - rewrite (Go_en_route _ _ _ _ E).
    match goal with |- ?m _ = _ -> _ =>
      assert (K : preserves I m);
        [|intros E'; eapply K; [|exact E']; now apply Hpos]
    end.
    apply preserves_bind; [case (_ =? _); apply preserves_emit|intros _].
    apply preserves_bind; [apply preserves_lift|intros curr].
    apply preserves_bind; [apply preserves_lift|intros s0].
    apply preserves_bind; [apply preserves_emit|intros _].
    apply preserves_bind; [now apply preserves_NotifyBusArrival|intros _].
    apply preserves_bind; [apply preserves_get_bus|intros b'].
    apply preserves_ret.
Qed.

(** X18. Go keeps the passenger set in order, however it ends: if every
    passenger is stored under its SSN and holds a valid ticket before the
    call, the same is true after it. *)
Theorem Go_keeps_ticketed_and_keyed (s s1 : State) (r : result bool) :
  keyed_bus (bus s) -> all_ticketed (bus s) ->
  Go heap today order s = (r, s1) ->
  keyed_bus (bus s1) /\ all_ticketed (bus s1).
Proof.
  intros Hk Ht H. split.
  - exact (preserves_keyed_Go heap today order _ _ _ Hk H).
  - refine (preserves_Go all_ticketed _ _ _ _ _ _ _ Ht H).
    + intros b i Hb. exact Hb.
    + apply preserves_ticketed_Remove.
    + apply preserves_ticketed_alight.
    + apply preserves_ticketed_board_prospect.
Qed.

(** Go returns false only where it empties the bus. *)
Lemma Go_false_empties (s s1 : State) :
  range_order order -> keyed_bus (bus s) ->
  on_route (bus s) -> Z.of_nat (length (stops (bus s))) <= 32768 ->
  Go heap today order s = (Ret false, s1) ->
  passengers (bus s1) = ∅.
Proof.
  intros Hord Hkey Hon Hlen H.
  pose proof (Go_result_value _ _ _ H) as Hv.
  destruct (Go_step _ _ _ _ _ _ Hon Hlen H) as (Hs & Hc & Hon1).
  unfold on_route in Hon, Hon1. rewrite Hs in Hon1.
  rewrite wrap16_small in Hv by lia. symmetry in Hv. apply Z.ltb_ge in Hv.
  assert (E : wrap16 (currentStop (bus s) + 1)
              = wrap16 (Z.of_nat (length (stops (bus s))) - 1)).
  { rewrite !wrap16_small by lia. lia. }
  rewrite (Go_terminal _ _ _ _ E) in H.
  unfold bind at 1, emit in H. cbn [bus out] in H.
  unfold bind at 1, VisitPassengers in H. unfold bind at 1, get_bus in H.
  cbn [bus out] in H.
  rewrite range_Remove_keyed in H.
  - cbn in H. injection H as <-. cbn. apply foldr_delete_all.
    intros k Hk. now apply range_order_elem.
  - exact Hkey.
  - now apply range_order_NoDup.
  - intros k Hk. now apply (range_order_elem order).
Qed.

(** X19. The driver's loop ends.  On a route of at most 32768 stops, from
    a position that is -1 or on the route, with a body that leaves route
    and position alone and keeps the set stored by SSN: given fuel for
    the stops that remain (one call at least) the loop does not run out
    of it; and when it ends, Go was called once per remaining stop, the
    bus is at the last stop, and it is empty. *)
Theorem drive_ends (body : M unit) (fuel : nat) :
  forall (s s1 : State) (r : result (option nat)),
    range_order order ->
    keeps_route body -> preserves keyed_bus body ->
    on_route (bus s) -> Z.of_nat (length (stops (bus s))) <= 32768 ->
    keyed_bus (bus s) ->
    drive heap today order body fuel s = (r, s1) ->
    (0 < Z.of_nat fuel ->
     Z.of_nat (length (stops (bus s))) - 1 - currentStop (bus s)
     <= Z.of_nat fuel -> r <> Ret None) /\
    (forall n, r = Ret (Some n) ->
       Z.of_nat n = Z.of_nat (length (stops (bus s))) - 1 - currentStop (bus s) /\
       currentStop (bus s1) = Z.of_nat (length (stops (bus s1))) - 1 /\
       stops (bus s1) = stops (bus s) /\
       passengers (bus s1) = ∅).
Proof.
  intros s s1 r Hord Hbody Hbk. revert s s1 r.
  induction fuel as [|fuel IH]; intros s s1 r Hon Hlen Hkey H;
    cbn [drive] in H.
  - injection H as <- <-. split; [intros Hf; cbn in Hf; lia | discriminate].
  - apply bind_inv in H as [(more & s2 & HGo & H)|(v & _ & ->)];
      [|split; [discriminate | discriminate]].
    pose proof (Go_result_value _ _ _ HGo) as Hv.
    destruct (Go_step _ _ _ _ _ _ Hon Hlen HGo) as (Hs & Hc & Hon2).
    assert (Hkey2 : keyed_bus (bus s2))
      by exact (preserves_keyed_Go heap today order _ _ _ Hkey HGo).
    unfold on_route in Hon, Hon2. rewrite Hs in Hon2.
    rewrite wrap16_small in Hv by lia.
    destruct more.
    + symmetry in Hv. apply Z.ltb_lt in Hv.
      apply bind_inv in H as [([] & s3 & Hb & H)|(v & _ & ->)];
        [|split; [discriminate | discriminate]].
      destruct (Hbody _ _ _ Hb) as (Hs3 & Hc3 & _).
      assert (Hkey3 : keyed_bus (bus s3)) by exact (Hbk _ _ _ Hkey2 Hb).
      apply bind_inv in H as [(n' & s4 & Hd & H)|(v & _ & ->)];
        [|split; [discriminate | discriminate]].
      injection H as <- <-.
      destruct (IH s3 s4 (Ret n')) as [IH1 IH2];
        [unfold on_route; rewrite Hs3, Hc3, Hs; lia
        |rewrite Hs3, Hs; lia | assumption | assumption |].
      rewrite Hs3, Hc3, Hs, Hc in IH1, IH2. split.
      * intros _ Hf. destruct n' as [n'|]; [discriminate|].
        exfalso. apply IH1; [lia | lia | reflexivity].
      * intros n. destruct n' as [n'|]; [|discriminate]. cbn.
        intros [= <-]. destruct (IH2 n' eq_refl) as (Hn & Hp & Hst & He).
        repeat split; [lia | assumption | congruence | assumption].
    + symmetry in Hv. apply Z.ltb_ge in Hv. injection H as <- <-. split.
      * discriminate.
      * intros n [= <-].
        repeat split; [lia | rewrite Hs; lia | assumption|].
        exact (Go_false_empties _ _ Hord Hkey
                 ltac:(unfold on_route; lia) Hlen HGo).
Qed.

End GoReports.

Lemma Go_reports_remaining_stops_witness :
  let s1 := snd (Go main_heap Monday key_order expressLine) in
  (true = true <->
   currentStop (bus s1) < Z.of_nat (length (stops (bus s1))) - 1) /\
  (true = false <->
   currentStop (bus s1) = Z.of_nat (length (stops (bus s1))) - 1) /\
  exists stop,
    CurrentStop (bus s1) = Ret stop /\
    stops (bus expressLine) !! Z.to_nat (currentStop (bus expressLine) + 1)
    = Some stop.
Proof.
  apply (Go_reports_remaining_stops main_heap Monday key_order expressLine).
  - unfold on_route. vm_compute. split; discriminate.
  - vm_compute. discriminate.
  - vm_compute. reflexivity.
Defined.

Lemma Go_keeps_ticketed_and_keyed_witness :
  let s1 := snd (Go main_heap Monday key_order expressLine) in
  passengers (bus s1) !! "11223322-67"
  = Some (mkPassenger "11223322-67" 0 (Some TheVillage) true) /\
  keyed_bus (bus s1) /\ all_ticketed (bus s1).
Proof.
  split; [vm_compute; reflexivity|].
  apply (Go_keeps_ticketed_and_keyed main_heap Monday key_order expressLine _
           (fst (Go main_heap Monday key_order expressLine))).
  - apply keyed_empty.
  - apply map_Forall_empty.
  - vm_compute. reflexivity.
Defined.

Lemma drive_ends_witness :
  let r := drive main_heap Monday key_order (ret tt) 5 expressLine in
  (0 < Z.of_nat 5 ->
   Z.of_nat (length (stops (bus expressLine))) - 1
   - currentStop (bus expressLine) <= Z.of_nat 5 ->
   fst r <> Ret None) /\
  (forall n, fst r = Ret (Some n) ->
     Z.of_nat n = Z.of_nat (length (stops (bus expressLine))) - 1
                  - currentStop (bus expressLine) /\
     currentStop (bus (snd r)) = Z.of_nat (length (stops (bus (snd r)))) - 1 /\
     stops (bus (snd r)) = stops (bus expressLine) /\
     passengers (bus (snd r)) = ∅).
Proof.
  apply (drive_ends main_heap Monday key_order (ret tt) 5 expressLine).
  - intros m. reflexivity.
  - apply keeps_route_ret.
  - apply preserves_ret.
  - unfold on_route. vm_compute. split; discriminate.
  - vm_compute. discriminate.
  - apply keyed_empty.
  - vm_compute. reflexivity.
Defined.

(** The loop of [main], with its body left empty, makes three calls. *)
Example main_drive :
  fst (drive main_heap Monday key_order (ret tt) 5 expressLine)
  = Ret (Some 3%nat).
Proof. vm_compute. reflexivity. Qed.

(** ** Further edges *)

(** X20. Charge always hands back the passenger with a valid ticket and
    nothing else changed, and it prints the charge only if the ticket was
    not valid yet; so charging the result again, for any amount, prints
    nothing more: two charges in a row are the first one. *)
Theorem Charge_charges_once (p : Passenger) (a1 a2 : float) (s : State) :
  Charge p a1 s
  = (Ret (set_HasValidTicket true p),
     mkState (bus s)
             (out s ++ if HasValidTicket p then []
                       else [Charged (SSN p) a1])) /\
  (p' <- Charge p a1 ;; Charge p' a2) s = Charge p a1 s.
Proof.
  split; [|apply Charge_twice].
  unfold Charge. destruct (HasValidTicket p) eqn:E.
  - rewrite ticketed_fixed by assumption. unfold ret.
    rewrite app_nil_r. now destruct s.
  - reflexivity.
Qed.

(** X21. Once the bus is at the last stop of a route of 1 to 32767
    stops, one more Go moves the position to the length of the route and
    panics on the index: the caller must stop when Go returned false. *)
Theorem Go_after_last_stop_panics (heap : Heap) (today : Weekday)
    (order : gmap string Passenger -> list string) (s : State) :
  currentStop (bus s) = Z.of_nat (length (stops (bus s))) - 1 ->
  0 < Z.of_nat (length (stops (bus s))) <= 32767 ->
  exists s', Go heap today order s
             = (Panic (IndexOutOfRange (Z.of_nat (length (stops (bus s))))
                                       (length (stops (bus s)))), s') /\
             currentStop (bus s') = Z.of_nat (length (stops (bus s))) /\
             passengers (bus s') = passengers (bus s) /\
             stops (bus s') = stops (bus s).
Proof.
  intros Hc Hlen.
  destruct (Go_at_last_index_panics heap today order s Hc Hlen) as (s' & H & Hp).
  exists s'. split; [assumption|]. split; [assumption|].
  assert (E1 : wrap16 (currentStop (bus s) + 1)
               = Z.of_nat (length (stops (bus s)))).
  { rewrite wrap16_small; lia. }
  assert (E2 : wrap16 (Z.of_nat (length (stops (bus s))) - 1)
               = Z.of_nat (length (stops (bus s))) - 1).
  { rewrite wrap16_small; lia. }
  rewrite Go_en_route in H by lia. rewrite E1 in H.
  destruct (Z.eqb_spec (Z.of_nat (length (stops (bus s)))) 0) as [?|_]; [lia|].
  unfold bind at 1, emit in H. unfold bind at 1, lift in H.
  rewrite index_out_of_range in H by (cbn; lia).
  injection H as <-. split; reflexivity.
Qed.

Lemma Go_after_last_stop_panics_witness :
  let s := snd (Go stops_heap Monday key_order shortLine) in
  exists s', Go stops_heap Monday key_order s
             = (Panic (IndexOutOfRange (Z.of_nat (length (stops (bus s))))
                                       (length (stops (bus s)))), s') /\
             currentStop (bus s') = Z.of_nat (length (stops (bus s))) /\
             passengers (bus s') = passengers (bus s) /\
             stops (bus s') = stops (bus s).
Proof.
  apply (Go_after_last_stop_panics stops_heap Monday key_order
           (snd (Go stops_heap Monday key_order shortLine))).
  - vm_compute. reflexivity.
  - vm_compute. split; [reflexivity | discriminate].
Defined.

(** X22. An SSN of fewer than two bytes, the empty one included, has no
    last two bytes: IsSenior panics on the slice, and so do the two
    calculators, and Board for a passenger without ticket, in the state
    they were called in. *)
Theorem short_SSN_panics (p : Passenger) (s : State) (v : PanicValue) :
  (String.length (SSN p) < 2)%nat ->
  HasValidTicket p = false ->
  v = SliceBoundsOutOfRange (Z.of_nat (String.length (SSN p)) - 2) ->
  IsSenior p = Panic v /\
  WorkdayPricing p s = (Panic v, s) /\
  WeekendPricing p s = (Panic v, s) /\
  Board p WorkdayPricing s = (Panic v, s) /\
  Board p WeekendPricing s = (Panic v, s).
Proof.
  intros H Ht ->. pose proof (IsSenior_short_SSN p H) as Hs.
  assert (Hw : WorkdayPricing p s
               = (Panic (SliceBoundsOutOfRange
                           (Z.of_nat (String.length (SSN p)) - 2)), s))
    by (unfold WorkdayPricing, bind, lift; now rewrite Hs).
  assert (He : WeekendPricing p s
               = (Panic (SliceBoundsOutOfRange
                           (Z.of_nat (String.length (SSN p)) - 2)), s))
    by (unfold WeekendPricing, bind, lift; now rewrite Hs).
  split; [assumption|]. split; [assumption|]. split; [assumption|].
  split; now apply Board_charge_panics.
Qed.

Lemma short_SSN_panics_witness :
  let p := mkPassenger EmptyString 0 (Some Downtown) false in
  IsSenior p = Panic (SliceBoundsOutOfRange (-2)) /\
  WorkdayPricing p expressLine
  = (Panic (SliceBoundsOutOfRange (-2)), expressLine) /\
  WeekendPricing p expressLine
  = (Panic (SliceBoundsOutOfRange (-2)), expressLine) /\
  Board p WorkdayPricing expressLine
  = (Panic (SliceBoundsOutOfRange (-2)), expressLine) /\
  Board p WeekendPricing expressLine
  = (Panic (SliceBoundsOutOfRange (-2)), expressLine).
Proof.
  apply (short_SSN_panics (mkPassenger EmptyString 0 (Some Downtown) false)
           expressLine).
  - cbn. lia.
  - reflexivity.
  - reflexivity.
Defined.

(** At a stop NotifyArrival is that stop's arrival protocol. *)
Lemma NotifyArrival_at_stop (heap : Heap) (today : Weekday)
    (order : gmap string Passenger -> list string) (s : State) (stop : ptr) :
  0 <= currentStop (bus s) ->
  stops (bus s) !! Z.to_nat (currentStop (bus s)) = Some stop ->
  NotifyArrival heap today order s = NotifyBusArrival heap today order stop s.
Proof.
  intros Hpos Hl. unfold NotifyArrival. unfold bind at 1, get_bus.
  unfold bind at 1, lift.
  destruct (index_in_range (stops (bus s)) (currentStop (bus s)))
    as (x & Hi & Hx).
  - apply lookup_lt_Some in Hl. lia.
  - rewrite Hi. congruence.
Qed.

(** X23. NotifyArrival needs the bus to be at a stop: with the position
    at -1, before the first Go, or past the route it panics on the index
    and changes nothing. *)
Theorem NotifyArrival_out_of_range (heap : Heap) (today : Weekday)
    (order : gmap string Passenger -> list string) (s : State) :
  currentStop (bus s) < 0 \/
  Z.of_nat (length (stops (bus s))) <= currentStop (bus s) ->
  NotifyArrival heap today order s
  = (Panic (IndexOutOfRange (currentStop (bus s)) (length (stops (bus s)))),
     s).
Proof.
  intros H. unfold NotifyArrival. unfold bind at 1, get_bus.
  unfold bind at 1, lift. now rewrite index_out_of_range.
Qed.

Lemma NotifyArrival_out_of_range_witness :
  NotifyArrival main_heap Monday key_order expressLine
  = (Panic (IndexOutOfRange (-1) 3), expressLine).
Proof.
  apply (NotifyArrival_out_of_range main_heap Monday key_order expressLine).
  left. reflexivity.
Defined.

(** X24. On every day of the week the calculator of the day charges a
    senior less than a passenger who is not one: 1.5 less. *)
Theorem seniors_pay_less (c : BusCompany) (wd : Weekday) (p q : Passenger)
    (s : State) :
  IsSenior p = Ret true -> IsSenior q = Ret false ->
  exists a b,
    GetPricing c wd p s = (Ret a, s) /\
    GetPricing c wd q s = (Ret b, s) /\
    PrimFloat.ltb a b = true /\
    PrimFloat.sub b a = 1.5%float.
Proof.
  intros Hp Hq.
  destruct (GetPricing_cases c wd) as [-> | ->];
    unfold WeekendPricing, WorkdayPricing, bind, lift; rewrite Hp, Hq;
    eexists _, _; repeat split; vm_compute; reflexivity.
Qed.

Lemma seniors_pay_less_witness :
  exists a b,
    GetPricing "Express" Saturday (ToPassenger betty) expressLine
    = (Ret a, expressLine) /\
    GetPricing "Express" Saturday (ToPassenger john) expressLine
    = (Ret b, expressLine) /\
    PrimFloat.ltb a b = true /\
    PrimFloat.sub b a = 1.5%float.
Proof.
  apply (seniors_pay_less "Express" Saturday (ToPassenger betty)
           (ToPassenger john) expressLine); reflexivity.
Defined.

(** X25. However Go ends, by returning or by a panic, it has moved the
    position by one step of [int16] and has left the route, the name and
    the company of the bus as they were. *)
Theorem Go_moves_one_step (heap : Heap) (today : Weekday)
    (order : gmap string Passenger -> list string) (s s' : State)
    (r : result bool) :
  Go heap today order s = (r, s') ->
  currentStop (bus s') = wrap16 (currentStop (bus s) + 1) /\
  stops (bus s') = stops (bus s) /\
  name (bus s') = name (bus s).
Proof.
  intros H. destruct (Go_position heap today order _ _ _ H) as (Hs & Hc & Hn).
  auto.
Qed.

Lemma Go_moves_one_step_witness :
  let s' := snd (Go stops_heap Monday key_order strayLine) in
  returns (fst (Go stops_heap Monday key_order strayLine)) = false /\
  currentStop (bus s') = wrap16 (currentStop (bus strayLine) + 1) /\
  stops (bus s') = stops (bus strayLine) /\
  name (bus s') = name (bus strayLine).
Proof.
  split; [vm_compute; reflexivity|].
  apply (Go_moves_one_step stops_heap Monday key_order strayLine _
           (fst (Go stops_heap Monday key_order strayLine))).
  vm_compute. reflexivity.
Defined.
